(** * GitDoku: a shallow embedding of the Sudoku engine of
    badge/apps/sudoku/__init__.py and proofs about it.

    Grids are Python lists of lists of small non-negative integers; they
    are modelled as [list (list nat)] with stdpp's list lookup and
    insert.  Reads and writes go through [cell] and [set_cell]: the
    source only ever indexes in range, where they agree with Python's
    [board[r][c]] and [board[r][c] = v]. *)

From Stdlib Require Import ZArith Lia Permutation.
From stdpp Require Import base list strings.

Open Scope nat_scope.

(** ** Grids *)

Abbreviation grid := (list (list nat)).

(** [board[r][c]] *)
Definition cell (b : grid) (r c : nat) : nat :=
  match b !! r with
  | Some row => match row !! c with Some v => v | None => 0 end
  | None => 0
  end.

(** [board[r][c] = v] *)
Definition set_cell (b : grid) (r c v : nat) : grid :=
  match b !! r with
  | Some row => <[r := <[c := v]> row]> b
  | None => b
  end.

(** [[(r, c) for r in range(9) for c in range(9)]]: the row-major order
    in which every nested [for row ... for col ...] loop visits cells. *)
Definition all_cells : list (nat * nat) :=
  flat_map (fun r => map (fun c => (r, c)) (seq 0 9)) (seq 0 9).

(** A 9x9 grid: nine rows of nine cells. *)
Definition wf_grid (b : grid) : bool :=
  (length b =? 9) && forallb (fun row => length row =? 9) b.

(** Every cell holds 0 (empty) or one of 1..9. *)
Definition cells_le9 (b : grid) : bool :=
  forallb (fun '(r, c) => cell b r c <=? 9) all_cells.

(** ** [_is_valid] (lines 90-106) *)

Definition _is_valid (board : grid) (row col num : nat) : bool :=
  (* Check row (skip the current cell) *)
  forallb (fun x => negb ((negb (x =? col)) && (cell board row x =? num))) (seq 0 9) &&
  (* Check column (skip the current cell) *)
  forallb (fun x => negb ((negb (x =? row)) && (cell board x col =? num))) (seq 0 9) &&
  (* Check 3x3 box (skip the current cell) *)
  (let start_row := 3 * (row / 3) in
   let start_col := 3 * (col / 3) in
   forallb (fun i =>
     forallb (fun j =>
       let r := start_row + i in
       let c := start_col + j in
       negb ((negb (r =? row) || negb (c =? col)) && (cell board r c =? num)))
       (seq 0 3))
     (seq 0 3)).

(** ** [_solve_sudoku] (lines 108-119)

    The nested loops stop at the first empty cell in row-major order. *)
Definition find_empty (board : grid) : option (nat * nat) :=
  find (fun '(r, c) => cell board r c =? 0) all_cells.

(** The board is threaded through the recursion: a result is the
    returned boolean together with the board as the caller sees it
    afterwards.  [try_nums] is the [for num in range(1, 10)] loop of the
    first empty cell; [rec] is the recursive call. *)
Fixpoint try_nums (rec : grid -> bool * grid) (row col : nat) (nums : list nat)
    (board : grid) : bool * grid :=
  match nums with
  | [] => (false, board)
  | num :: nums' =>
    if _is_valid board row col num then
      let '(ok, board') := rec (set_cell board row col num) in
      if ok then (true, board')
      else try_nums rec row col nums' (set_cell board' row col 0)
    else try_nums rec row col nums' board
  end.

(** Each recursive call is made on a board with one empty cell less, so
    [fuel] (the recursion depth) never runs out when it exceeds the
    number of empty cells; [_solve_sudoku] starts it at 82. *)
Fixpoint solve (fuel : nat) (board : grid) : bool * grid :=
  match fuel with
  | O => (false, board)
  | S fuel' =>
    match find_empty board with
    | None => (true, board)
    | Some (row, col) => try_nums (solve fuel') row col (seq 1 9) board
    end
  end.

Definition _solve_sudoku (board : grid) : bool * grid := solve 82 board.

(** Number of empty cells. *)
Definition zeros (b : grid) : nat :=
  length (List.filter (fun '(r, c) => cell b r c =? 0) all_cells).


(** ** [_validate_board] (lines 152-165)

    Each non-zero cell is cleared, checked with [_is_valid] and put
    back; the board is threaded through, as the source mutates it. *)
Fixpoint validate_cells (cells : list (nat * nat)) (board : grid) : bool * grid :=
  match cells with
  | [] => (true, board)
  | (row, col) :: cells' =>
    let num := cell board row col in
    if negb (num =? 0) then
      let board := set_cell board row col 0 in
      if negb (_is_valid board row col num) then (false, set_cell board row col num)
      else validate_cells cells' (set_cell board row col num)
    else validate_cells cells' board
  end.

Definition _validate_board (board : grid) : bool * grid := validate_cells all_cells board.

(** ** Safe RNG (lines 20-35)

    [urandom] is the platform's [urandom.getrandbits], if the module has
    it: [Some f] answers the [k]-th call [getrandbits(n)] with [f k n];
    [None] is the [AttributeError] case.  The process-wide
    [_rng_state["s"]] is the LCG state; it is set at import time, so the
    [.get] default of line 25 is never taken. *)
Record rng_state := mk_rng { draws : nat; lcg_s : Z }.

Definition RNG (A : Type) : Type := rng_state -> A * rng_state.
Definition rret {A} (a : A) : RNG A := fun st => (a, st).
Definition rbind {A B} (m : RNG A) (k : A -> RNG B) : RNG B :=
  fun st => let '(a, st') := m st in k a st'.
Notation "'let*' x := m 'in' k" := (rbind m (fun x => k))
  (at level 200, x name, m at level 100, k at level 200).

Section Rng.
Variable urandom : option (nat -> Z -> Z).

Definition lcg_step (s : Z) : Z := Z.land (1103515245 * s + 12345) 2147483647.

Definition _getrandbits (n : Z) : RNG Z := fun st =>
  match urandom with
  | Some getrandbits => (getrandbits (draws st) n, mk_rng (S (draws st)) (lcg_s st))
  | None =>
    let s := lcg_step (lcg_s st) in
    (Z.land s (Z.shiftl 1 (Z.min n 24) - 1), mk_rng (draws st) s)
  end.

Definition _randint (a b : Z) : RNG Z :=
  let span := (b - a + 1)%Z in
  let* r := _getrandbits 30 in
  rret (a + r mod span)%Z.

(** ** [_generate_full_board] (lines 121-139) *)

(** [for i in range(8, 0, -1): j = _randint(0, i); nums[i], nums[j] = nums[j], nums[i]] *)
Fixpoint shuffle (is : list nat) (nums : list nat) : RNG (list nat) :=
  match is with
  | [] => rret nums
  | i :: is' =>
    let* j := _randint 0 (Z.of_nat i) in
    let j := Z.to_nat j in
    let ni := default 0 (nums !! i) in
    let nj := default 0 (nums !! j) in
    shuffle is' (<[j := ni]> (<[i := nj]> nums))
  end.

(** [idx = 0; for i in range(3): for j in range(3): board[box+i][box+j] = nums[idx]; idx += 1] *)
Definition fill_box (box : nat) (nums : list nat) (board : grid) : grid :=
  fold_left (fun b '(i, j) => set_cell b (box + i) (box + j) (default 0 (nums !! (3 * i + j))))
    (flat_map (fun i => map (fun j => (i, j)) (seq 0 3)) (seq 0 3)) board.

(** [for box in range(0, 9, 3)]: fill the three diagonal boxes. *)
Fixpoint seed_boxes (boxes : list nat) (board : grid) : RNG grid :=
  match boxes with
  | [] => rret board
  | box :: boxes' =>
    let* nums := shuffle (rev (seq 1 8)) (seq 1 9) in
    seed_boxes boxes' (fill_box box nums board)
  end.

Definition zero_grid : grid := repeat (repeat 0 9) 9.

(** The source retries by unbounded recursion; [fuel] counts the
    attempts, and [None] stands for a run still retrying after them. *)
Fixpoint _generate_full_board (fuel : nat) : RNG (option grid) :=
  match fuel with
  | O => rret None
  | S fuel' =>
    let* board := seed_boxes [0; 3; 6] zero_grid in
    let '(ok, board) := _solve_sudoku board in
    if negb ok then _generate_full_board fuel'
    else rret (Some board)
  end.

(** ** [_remove_numbers] (lines 141-150) *)

Definition remove_count (difficulty : Z) : nat := default 0 ([40; 50; 60] !! Z.to_nat difficulty).

Fixpoint remove_loop (k : nat) (cells : list (nat * nat)) (board : grid) : RNG grid :=
  match k with
  | O => rret board
  | S k' =>
    match cells with
    | [] => rret board
    | _ :: _ =>
      let* idx := _randint 0 (Z.of_nat (length cells) - 1) in
      let idx := Z.to_nat idx in
      match cells !! idx with
      | Some (r, c) => remove_loop k' (delete idx cells) (set_cell board r c 0)
      | None => rret board
      end
    end
  end.

Definition _remove_numbers (board : grid) (difficulty : Z) : RNG grid :=
  remove_loop (remove_count difficulty) all_cells board.

(** ** Game state (lines 64-79)

    ["last_btn"] and ["btn_delay"] are never read and are left out.
    [board], [solution] and [given] are [None] until the first game;
    they are [[]] here, and no code path reads them before [_new_game].
    The toast dictionary [_toast_msg] (line 237) and the RNG state are
    carried along, since the play screen reads and writes them. *)
Inductive screen_t := Title | Play | Pause | Gameover.

Inductive button := BUTTON_UP | BUTTON_DOWN | BUTTON_A | BUTTON_B | BUTTON_C | BUTTON_HOME.

#[global] Instance button_eq_dec : EqDecision button.
Proof. solve_decision. Defined.

(** What [io] offers during one frame. *)
Record input := mk_input {
  ticks : Z;
  pressed : list button;
  held : list button;
  has_home : bool
}.

Record state := mk_state {
  screen : screen_t;
  difficulty : Z;
  board : grid;
  solution : grid;
  given : list (list bool);
  cursor_x : Z;
  cursor_y : Z;
  mistakes : nat;
  time : Z;
  start_time : Z;
  hiscores : list Z;
  toast_t : Z;
  toast_txt : string;
  rng : rng_state
}.

Definition set_screen (v : screen_t) (s : state) : state :=
  mk_state v (difficulty s) (board s) (solution s) (given s) (cursor_x s) (cursor_y s)
    (mistakes s) (time s) (start_time s) (hiscores s) (toast_t s) (toast_txt s) (rng s).
Definition set_difficulty (v : Z) (s : state) : state :=
  mk_state (screen s) v (board s) (solution s) (given s) (cursor_x s) (cursor_y s)
    (mistakes s) (time s) (start_time s) (hiscores s) (toast_t s) (toast_txt s) (rng s).
Definition set_board (v : grid) (s : state) : state :=
  mk_state (screen s) (difficulty s) v (solution s) (given s) (cursor_x s) (cursor_y s)
    (mistakes s) (time s) (start_time s) (hiscores s) (toast_t s) (toast_txt s) (rng s).
Definition set_cursor (x y : Z) (s : state) : state :=
  mk_state (screen s) (difficulty s) (board s) (solution s) (given s) x y
    (mistakes s) (time s) (start_time s) (hiscores s) (toast_t s) (toast_txt s) (rng s).
Definition set_mistakes (v : nat) (s : state) : state :=
  mk_state (screen s) (difficulty s) (board s) (solution s) (given s) (cursor_x s) (cursor_y s)
    v (time s) (start_time s) (hiscores s) (toast_t s) (toast_txt s) (rng s).
Definition set_time (v : Z) (s : state) : state :=
  mk_state (screen s) (difficulty s) (board s) (solution s) (given s) (cursor_x s) (cursor_y s)
    (mistakes s) v (start_time s) (hiscores s) (toast_t s) (toast_txt s) (rng s).
Definition set_hiscores (v : list Z) (s : state) : state :=
  mk_state (screen s) (difficulty s) (board s) (solution s) (given s) (cursor_x s) (cursor_y s)
    (mistakes s) (time s) (start_time s) v (toast_t s) (toast_txt s) (rng s).
Definition set_toast (t : Z) (txt : string) (s : state) : state :=
  mk_state (screen s) (difficulty s) (board s) (solution s) (given s) (cursor_x s) (cursor_y s)
    (mistakes s) (time s) (start_time s) (hiscores s) t txt (rng s).

(** Lines 65-87 and 35: the module's state at import; [loaded] is what
    [State.load] put into ["hiscores"] (or the default) and [t0] is
    [io.ticks] at import. *)
Definition init_state (loaded : list Z) (t0 : Z) : state :=
  mk_state Title 0 [] [] [] 0 0 0 0 0 loaded 0 ""
    (mk_rng 0 (Z.lxor (Z.land t0 2147483647) 521288629)).

(** [state["given"][r][c]] *)
Definition given_at (g : list (list bool)) (r c : nat) : bool :=
  match g !! r with Some row => default false (row !! c) | None => false end.

(** ** [_new_game] (lines 167-183) *)

(** [given = [[board[r][c] != 0 for c in range(9)] for r in range(9)]] *)
Definition make_given (board : grid) : list (list bool) :=
  map (fun r => map (fun c => negb (cell board r c =? 0)) (seq 0 9)) (seq 0 9).

(** Lines 173-175: copy the solution, carve it, compute the mask. *)
Definition carve_puzzle (solution : grid) (difficulty : Z) : RNG (grid * list (list bool)) :=
  let* board := _remove_numbers solution difficulty in
  rret (board, make_given board).

(** The retry of line 172 is again unbounded recursion, bounded by [fuel]
    here; [now] is [io.ticks]. *)
Fixpoint _new_game (fuel : nat) (now : Z) (s : state) : option state :=
  match fuel with
  | O => None
  | S fuel' =>
    let '(res, st) := _generate_full_board fuel (rng s) in
    match res with
    | None => None
    | Some solution =>
      let '(ok, solution) := _validate_board solution in
      if negb ok then _new_game fuel' now (mk_state (screen s) (difficulty s) (board s)
        (solution) (given s) (cursor_x s) (cursor_y s) (mistakes s) (time s) (start_time s)
        (hiscores s) (toast_t s) (toast_txt s) st)
      else
        let '((board, given), st) := carve_puzzle solution (difficulty s) st in
        Some (mk_state (screen s) (difficulty s) board solution given 0 0 0 0 now
                (hiscores s) (toast_t s) (toast_txt s) st)
    end
  end.

(** ** Game logic (lines 186-214) *)

Definition _is_complete (s : state) : bool :=
  forallb (fun '(r, c) => cell (board s) r c =? cell (solution s) r c) all_cells.

(** [_to_gameover] (lines 227-234); [State.save] is an external store
    whose failure is swallowed, so it does not appear.  Out of range the
    read gives 0 and the write does nothing (Python would raise). *)
Definition _to_gameover (s : state) : state :=
  let s := set_screen Gameover s in
  let d := Z.to_nat (difficulty s) in
  if (time s <? default 0%Z (hiscores s !! d))%Z
  then set_hiscores (<[d := time s]> (hiscores s)) s
  else s.

Definition _toast (now : Z) (txt : string) (s : state) : state := set_toast now txt s.

Definition _place_number (now : Z) (num : nat) (s : state) : state :=
  let r := Z.to_nat (cursor_y s) in
  let c := Z.to_nat (cursor_x s) in
  if given_at (given s) r c then s
  else
    let s := set_board (set_cell (board s) r c num) s in
    let s := if negb (num =? 0) && negb (num =? cell (solution s) r c)
             then _toast now "Merge conflict!" (set_mistakes (S (mistakes s)) s)
             else s in
    if _is_complete s then _to_gameover s else s.

Definition _hint (now : Z) (s : state) : state :=
  let r := Z.to_nat (cursor_y s) in
  let c := Z.to_nat (cursor_x s) in
  if negb (given_at (given s) r c) then
    let s := set_board (set_cell (board s) r c (cell (solution s) r c)) s in
    let s := _toast now "Hint applied!" s in
    if _is_complete s then _to_gameover s else s
  else s.

Definition _move_cursor (dx dy : Z) (s : state) : state :=
  set_cursor ((cursor_x s + dx) mod 9) ((cursor_y s + dy) mod 9) s.

(** ** Screen transitions (lines 217-225) *)

Definition _to_title (s : state) : state := set_screen Title s.
Definition _to_game (fuel : nat) (now : Z) (s : state) : option state :=
  _new_game fuel now (set_screen Play s).
Definition _to_pause (s : state) : state := set_screen Pause s.

(** ** Toast expiry, as [_draw_toast] does it (lines 243-248) *)
Definition _draw_toast (now : Z) (s : state) : state :=
  if String.eqb (toast_txt s) "" then s
  else if (now - toast_t s >? 1400)%Z then set_toast (toast_t s) "" s
  else s.

(** ** Input handlers (lines 255-324) *)

Definition _pressed (inp : input) (btn : button) : bool := bool_decide (btn ∈ pressed inp).

Definition _pause_pressed (inp : input) : bool :=
  (has_home inp && _pressed inp BUTTON_HOME) ||
  (bool_decide (BUTTON_B ∈ held inp) && bool_decide (BUTTON_C ∈ held inp)).

Definition _handle_title (fuel : nat) (inp : input) (s : state) : option state :=
  if _pressed inp BUTTON_UP then Some (set_difficulty ((difficulty s - 1) mod 3) s)
  else if _pressed inp BUTTON_DOWN then Some (set_difficulty ((difficulty s + 1) mod 3) s)
  else if _pressed inp BUTTON_B then _to_game fuel (ticks inp) s
  else Some s.

(** [skip_numbers]: values of given cells in row [r] or column [c]. *)
Definition skip_numbers (s : state) (r c : nat) : list nat :=
  fold_left (fun skip x =>
    let skip := if given_at (given s) r x && negb (cell (board s) r x =? 0)
                then cell (board s) r x :: skip else skip in
    if given_at (given s) x c && negb (cell (board s) x c =? 0)
    then cell (board s) x c :: skip else skip) (seq 0 9) [].

(** [for attempt in range(1, 11): ... _place_number(next_num); break] *)
Fixpoint cycle_attempts (now : Z) (current : nat) (skip : list nat) (attempts : list nat)
    (s : state) : state :=
  match attempts with
  | [] => s
  | attempt :: attempts' =>
    let next_num := (current + attempt) mod 10 in
    if (next_num =? 0) || negb (bool_decide (next_num ∈ skip))
    then _place_number now next_num s
    else cycle_attempts now current skip attempts' s
  end.

Definition _cycle_number (now : Z) (s : state) : state :=
  let r := Z.to_nat (cursor_y s) in
  let c := Z.to_nat (cursor_x s) in
  if negb (given_at (given s) r c) then
    cycle_attempts now (cell (board s) r c) (skip_numbers s r c) (seq 1 10) s
  else s.

Definition _handle_play (inp : input) (s : state) : state :=
  let s := set_time ((ticks inp - start_time s) / 1000)%Z s in
  if _pause_pressed inp then _to_pause s
  else if _pressed inp BUTTON_UP then _move_cursor 0 (-1) s
  else if _pressed inp BUTTON_DOWN then _move_cursor 0 1 s
  else if _pressed inp BUTTON_A then _move_cursor (-1) 0 s
  else if _pressed inp BUTTON_C then _move_cursor 1 0 s
  else if _pressed inp BUTTON_B then _cycle_number (ticks inp) s
  else s.

Definition _handle_pause (inp : input) (s : state) : state :=
  if _pressed inp BUTTON_A then set_screen Play s
  else if _pressed inp BUTTON_B then _to_title s
  else s.

Definition _handle_gameover (fuel : nat) (inp : input) (s : state) : option state :=
  if _pressed inp BUTTON_A then _to_game fuel (ticks inp) s
  else if _pressed inp BUTTON_B then Some (_to_title s)
  else Some s.

(** ** [update] (lines 437-452): one frame.  Drawing is a sink, except
    that [_draw_toast] clears an expired toast.  [None]: a new game
    still retrying after [fuel] attempts. *)
Definition update (fuel : nat) (inp : input) (s : state) : option state :=
  match screen s with
  | Title => _handle_title fuel inp s
  | Play => Some (_draw_toast (ticks inp) (_handle_play inp s))
  | Pause => Some (_handle_pause inp s)
  | Gameover => _handle_gameover fuel inp s
  end.

(** States the module can reach from import, frame by frame.  [_hint]
    has no caller in [update]; it is added as a step on the play screen
    so that the results below cover it too. *)
Inductive reachable (loaded : list Z) (t0 : Z) : state -> Prop :=
| reach_init : reachable loaded t0 (init_state loaded t0)
| reach_frame fuel inp s s' :
    reachable loaded t0 s -> update fuel inp s = Some s' -> reachable loaded t0 s'
| reach_hint now s :
    reachable loaded t0 s -> screen s = Play -> reachable loaded t0 (_hint now s).

End Rng.

Definition sample_st : rng_state := mk_rng 0 123456789.
Definition press (t : Z) (bs : list button) : input := mk_input t bs [] false.
Definition hold (t : Z) (bs : list button) : input := mk_input t [] bs false.

(** The default ledger of line 76: three unset records. *)
Definition sample_scores : list Z := [999999; 999999; 999999]%Z.

(** Import at tick 0, then B on the title screen at tick 1000: the first
    game, with the fallback generator. *)
Definition sample_start : state := set_screen Play (init_state sample_scores 0).
Definition sample_game : state :=
  Eval vm_compute in default sample_start (_new_game None 1 1000 sample_start).

(** Frames one after another, as the main loop calls [update]. *)
Fixpoint run (urandom : option (nat -> Z -> Z)) (fuel : nat) (inps : list input) (s : state)
    : list state :=
  match inps with
  | [] => []
  | inp :: inps' =>
    match update urandom fuel inp s with
    | Some s' => s' :: run urandom fuel inps' s'
    | None => []
    end
  end.

(** A player who walks the board in snake order and presses B on every
    cell until it holds the solution's value. *)
Definition next_input (t : Z) (s : state) : input :=
  let r := Z.to_nat (cursor_y s) in
  let c := Z.to_nat (cursor_x s) in
  if negb (cell (board s) r c =? cell (solution s) r c) then press t [BUTTON_B]
  else if Nat.even r then (if c <? 8 then press t [BUTTON_C] else press t [BUTTON_DOWN])
  else (if 0 <? c then press t [BUTTON_A] else press t [BUTTON_DOWN]).

Fixpoint drive (fuel : nat) (t : Z) (s : state) : list input :=
  match fuel with
  | O => []
  | S fuel' =>
    match screen s with
    | Play =>
      let inp := next_input t s in
      match update None 1 inp s with
      | Some s' => inp :: drive fuel' (t + 100) s'
      | None => []
      end
    | _ => []
    end
  end.

Definition sample_moves : list input := drive 1000 2000 sample_game.
Definition sample_solved : state := List.last (run None 1 sample_moves sample_game) sample_game.

(** * Proofs *)

(** ** Reading and writing cells *)

Definition in_grid (b : grid) (r c : nat) : Prop :=
  exists row, b !! r = Some row /\ c < length row.

Lemma cell_set_eq b r c v : in_grid b r c -> cell (set_cell b r c v) r c = v.
Proof.
  intros (row & Hr & Hc). unfold set_cell, cell. rewrite Hr.
  assert (r < length b) by (apply lookup_lt_Some in Hr; lia).
  rewrite list_lookup_insert_eq by lia.
  rewrite list_lookup_insert_eq by lia. reflexivity.
Qed.

Lemma cell_set_ne b r c r' c' v :
  (r, c) <> (r', c') -> cell (set_cell b r c v) r' c' = cell b r' c'.
Proof.
  intros Hne. unfold set_cell, cell.
  destruct (b !! r) as [row|] eqn:Hr; [|reflexivity].
  destruct (decide (r = r')) as [<-|Hrr].
  - assert (c <> c') by congruence.
    destruct (decide (r < length b)).
    + rewrite list_lookup_insert_eq by lia. rewrite Hr.
      rewrite list_lookup_insert_ne by congruence. reflexivity.
    + apply lookup_lt_Some in Hr. lia.
  - rewrite list_lookup_insert_ne by congruence. reflexivity.
Qed.

Lemma cell_set b r c r' c' v :
  in_grid b r c ->
  cell (set_cell b r c v) r' c' = if decide ((r, c) = (r', c')) then v else cell b r' c'.
Proof.
  intros H. case_decide as E.
  - inversion E; subst. now apply cell_set_eq.
  - now apply cell_set_ne.
Qed.

Lemma set_set b r c v w : set_cell (set_cell b r c v) r c w = set_cell b r c w.
Proof.
  unfold set_cell. destruct (b !! r) as [row|] eqn:Hr; [|now rewrite Hr].
  assert (r < length b) by (apply lookup_lt_Some in Hr; lia).
  rewrite list_lookup_insert_eq by lia.
  rewrite list_insert_insert_eq, list_insert_insert_eq. reflexivity.
Qed.

Lemma set_id b r c : in_grid b r c -> set_cell b r c (cell b r c) = b.
Proof.
  intros (row & Hr & Hc). unfold set_cell, cell. rewrite Hr.
  destruct (row !! c) as [v|] eqn:Hv.
  - rewrite (list_insert_id row c v Hv). now apply list_insert_id.
  - apply lookup_ge_None in Hv. lia.
Qed.

Lemma in_grid_set b r c v r' c' : in_grid b r' c' -> in_grid (set_cell b r c v) r' c'.
Proof.
  intros (row & Hr & Hc). unfold set_cell.
  destruct (b !! r) as [row0|] eqn:Hr0; [|exists row; auto].
  destruct (decide (r = r')) as [<-|Hne].
  - assert (row0 = row) by congruence. subst.
    exists (<[c := v]> row). split.
    + apply list_lookup_insert_eq. apply lookup_lt_Some in Hr. lia.
    + rewrite length_insert. lia.
  - exists row. rewrite list_lookup_insert_ne by congruence. auto.
Qed.

Lemma wf_grid_set b r c v : wf_grid (set_cell b r c v) = wf_grid b.
Proof.
  unfold set_cell. destruct (b !! r) as [row|] eqn:Hr; [|reflexivity].
  unfold wf_grid. rewrite length_insert. f_equal.
  revert r Hr. induction b as [|row0 b IH]; intros [|r] Hr; simpl in *; try discriminate.
  - inversion Hr; subst. now rewrite length_insert.
  - now rewrite (IH r Hr).
Qed.

Lemma wf_in_grid b r c : wf_grid b = true -> r < 9 -> c < 9 -> in_grid b r c.
Proof.
  unfold wf_grid. intros Hwf Hr Hc.
  apply andb_true_iff in Hwf as [Hlen Hrows]. apply Nat.eqb_eq in Hlen.
  destruct (b !! r) as [row|] eqn:E.
  - exists row. split; [exact E|].
    rewrite forallb_forall in Hrows.
    assert (Hin : In row b) by (apply list_elem_of_In, list_elem_of_lookup; eauto).
    specialize (Hrows row Hin). apply Nat.eqb_eq in Hrows. lia.
  - apply lookup_ge_None in E. lia.
Qed.

(** ** [_is_valid] compares against the other cells of the row, the
    column and the box, and nothing else. *)

Definition same_unit (r c r' c' : nat) : Prop :=
  r' = r \/ c' = c \/ (r' / 3 = r / 3 /\ c' / 3 = c / 3).

Lemma same_unit_sym r c r' c' : same_unit r c r' c' -> same_unit r' c' r c.
Proof. unfold same_unit. intuition. Qed.

Lemma forallb_seq (f : nat -> bool) n :
  forallb f (seq 0 n) = true <-> forall x, x < n -> f x = true.
Proof.
  rewrite forallb_forall. split; intros H x Hx.
  - apply H, in_seq. lia.
  - apply in_seq in Hx. apply H. lia.
Qed.

Lemma div3_bounds a b : a / 3 = b / 3 -> 3 * (b / 3) <= a < 3 * (b / 3) + 3.
Proof.
  intros H. rewrite <- H.
  pose proof (Nat.div_mod_eq a 3). pose proof (Nat.mod_upper_bound a 3). lia.
Qed.

Lemma div3_box b i : i < 3 -> (3 * (b / 3) + i) / 3 = b / 3.
Proof.
  intros Hi. rewrite Nat.mul_comm, Nat.div_add_l by lia.
  rewrite (Nat.div_small i 3) by lia. lia.
Qed.

Lemma is_valid_spec b r c n :
  r < 9 -> c < 9 ->
  _is_valid b r c n = true <->
  (forall r' c', r' < 9 -> c' < 9 -> (r', c') <> (r, c) -> same_unit r c r' c' ->
                 cell b r' c' <> n).
Proof.
  intros Hr Hc. unfold _is_valid.
  rewrite !andb_true_iff, !forallb_seq. split.
  - intros [[Hrow Hcol] Hbox] r' c' Hr' Hc' Hne [->|[->|[Hbr Hbc]]].
    + specialize (Hrow c' Hc'). rewrite Nat.eqb_sym in Hrow.
      destruct (Nat.eqb_spec c c'); [congruence|].
      simpl in Hrow. apply negb_true_iff, Nat.eqb_neq in Hrow. exact Hrow.
    + specialize (Hcol r' Hr'). rewrite Nat.eqb_sym in Hcol.
      destruct (Nat.eqb_spec r r'); [congruence|].
      simpl in Hcol. apply negb_true_iff, Nat.eqb_neq in Hcol. exact Hcol.
    + pose proof (div3_bounds _ _ Hbr). pose proof (div3_bounds _ _ Hbc).
      assert (Hi : r' - 3 * (r / 3) < 3) by lia.
      assert (Hj : c' - 3 * (c / 3) < 3) by lia.
      specialize (Hbox _ Hi). rewrite forallb_seq in Hbox. specialize (Hbox _ Hj).
      replace (3 * (r / 3) + (r' - 3 * (r / 3))) with r' in Hbox by lia.
      replace (3 * (c / 3) + (c' - 3 * (c / 3))) with c' in Hbox by lia.
      apply negb_true_iff in Hbox.
      destruct (Nat.eqb_spec r' r), (Nat.eqb_spec c' c); subst; try congruence;
        simpl in Hbox; apply Nat.eqb_neq in Hbox; exact Hbox.
  - intros H. split; [split|].
    + intros x Hx. apply negb_true_iff.
      destruct (Nat.eqb_spec x c); [reflexivity|]. simpl.
      apply Nat.eqb_neq. apply H; unfold same_unit; auto; congruence.
    + intros x Hx. apply negb_true_iff.
      destruct (Nat.eqb_spec x r); [reflexivity|]. simpl.
      apply Nat.eqb_neq. apply H; unfold same_unit; auto; congruence.
    + intros i Hi. apply forallb_seq. intros j Hj. apply negb_true_iff.
      pose proof (div3_box r i Hi). pose proof (div3_box c j Hj).
      pose proof (div3_bounds r r eq_refl). pose proof (div3_bounds c c eq_refl).
      destruct (Nat.eqb_spec (3 * (r / 3) + i) r), (Nat.eqb_spec (3 * (c / 3) + j) c);
        cbn [negb andb orb]; try reflexivity;
        apply Nat.eqb_neq; apply H;
        [lia | lia | intros E; injection E; lia | unfold same_unit; right; right; split; lia
        |lia | lia | intros E; injection E; lia | unfold same_unit; right; right; split; lia
        |lia | lia | intros E; injection E; lia | unfold same_unit; right; right; split; lia].
Qed.

Lemma is_valid_set_same b r c v n :
  r < 9 -> c < 9 -> _is_valid (set_cell b r c v) r c n = _is_valid b r c n.
Proof.
  intros Hr Hc. apply eq_true_iff_eq. rewrite !is_valid_spec by lia.
  split; intros H r' c' Hr' Hc' Hne Hu.
  - rewrite <- (cell_set_ne b r c r' c' v) by congruence. auto.
  - rewrite cell_set_ne by congruence. auto.
Qed.

(** ** The cells of the grid *)

Lemma in_all_cells r c : In (r, c) all_cells <-> r < 9 /\ c < 9.
Proof.
  unfold all_cells. rewrite in_flat_map. split.
  - intros (r0 & Hr0 & Hin). apply in_map_iff in Hin as (c0 & [= <- <-] & Hc0).
    apply in_seq in Hr0, Hc0. lia.
  - intros [Hr Hc]. exists r. split; [apply in_seq; lia|].
    apply in_map_iff. exists c. split; [reflexivity|apply in_seq; lia].
Qed.

Lemma all_cells_NoDup : NoDup all_cells.
Proof. apply (bool_decide_unpack _). vm_compute. reflexivity. Qed.

Lemma find_empty_some b r c :
  find_empty b = Some (r, c) -> r < 9 /\ c < 9 /\ cell b r c = 0.
Proof.
  unfold find_empty. intros H. apply find_some in H as [Hin Hz].
  apply in_all_cells in Hin. apply Nat.eqb_eq in Hz. lia.
Qed.

Lemma find_empty_none b :
  find_empty b = None <-> (forall r c, r < 9 -> c < 9 -> cell b r c <> 0).
Proof.
  unfold find_empty. split.
  - intros H r c Hr Hc. pose proof (find_none _ _ H (r, c)) as Hn.
    simpl in Hn. apply Nat.eqb_neq, Hn, in_all_cells. auto.
  - intros H. destruct (find _ all_cells) as [[r c]|] eqn:E; [|reflexivity].
    apply find_some in E as [Hin Hz]. apply in_all_cells in Hin.
    apply Nat.eqb_eq in Hz. exfalso. apply (H r c); lia.
Qed.

(** One more filled cell means one empty cell less. *)
Lemma filter_length_flip {A} (f g : A -> bool) (l : list A) x :
  NoDup l -> In x l -> f x = true -> g x = false ->
  (forall y, In y l -> y <> x -> f y = g y) ->
  length (List.filter f l) = S (length (List.filter g l)).
Proof.
  induction l as [|y l IH]; intros Hnd Hin Hf Hg Hother; [destruct Hin|].
  inversion Hnd as [|? ? Hy Hnd']; subst.
  destruct Hin as [E|Hin].
  - subst y. simpl. rewrite Hf, Hg. simpl. f_equal.
    f_equal. apply List.filter_ext_in. intros z Hz. apply Hother; [right; exact Hz|].
    intros ->. apply Hy, list_elem_of_In. exact Hz.
  - simpl. assert (y <> x) by (intros ->; apply Hy, list_elem_of_In; exact Hin).
    rewrite (Hother y (or_introl eq_refl) H).
    destruct (g y); simpl; [f_equal|]; apply IH; auto;
      intros z Hz; apply Hother; right; exact Hz.
Qed.

Lemma zeros_set b r c n :
  r < 9 -> c < 9 -> in_grid b r c -> cell b r c = 0 -> n <> 0 ->
  zeros b = S (zeros (set_cell b r c n)).
Proof.
  intros Hr Hc Hg H0 Hn. unfold zeros.
  apply (filter_length_flip _ _ _ (r, c) all_cells_NoDup).
  - apply in_all_cells. auto.
  - now apply Nat.eqb_eq.
  - rewrite cell_set_eq by exact Hg. now apply Nat.eqb_neq.
  - intros [r' c'] _ Hne. rewrite cell_set_ne by congruence. reflexivity.
Qed.

(** ** Sudoku solutions and completions, in the words of the spec *)

(** A valid full grid: every cell holds one of 1..9 and no two distinct
    cells sharing a row, a column or a box hold the same value. *)
Definition valid_solution (g : grid) : Prop :=
  wf_grid g = true /\
  (forall r c, r < 9 -> c < 9 -> 1 <= cell g r c <= 9) /\
  (forall r c r' c', r < 9 -> c < 9 -> r' < 9 -> c' < 9 ->
     (r', c') <> (r, c) -> same_unit r c r' c' -> cell g r' c' <> cell g r c).

(** [g] keeps every filled cell of [b]. *)
Definition extends (b g : grid) : Prop :=
  forall r c, r < 9 -> c < 9 -> cell b r c <> 0 -> cell g r c = cell b r c.

Definition has_completion (b : grid) : Prop :=
  exists g, valid_solution g /\ extends b g.

(** The filled cells do not already break a constraint. *)
Definition consistent (b : grid) : Prop :=
  forall r c r' c', r < 9 -> c < 9 -> r' < 9 -> c' < 9 ->
    (r', c') <> (r, c) -> same_unit r c r' c' -> cell b r c <> 0 ->
    cell b r' c' <> cell b r c.

Lemma consistent_set b r c n :
  r < 9 -> c < 9 -> in_grid b r c -> consistent b -> _is_valid b r c n = true ->
  consistent (set_cell b r c n).
Proof.
  intros Hr Hc Hg Hcons Hv. pose proof (proj1 (is_valid_spec b r c n Hr Hc) Hv) as Hm.
  intros r1 c1 r2 c2 Hr1 Hc1 Hr2 Hc2 Hne Hu Hnz.
  rewrite !(cell_set b r c _ _ n Hg) in *.
  destruct (decide ((r, c) = (r1, c1))) as [E1|E1];
    destruct (decide ((r, c) = (r2, c2))) as [E2|E2].
  - congruence.
  - injection E1 as <- <-. apply Hm; auto.
  - injection E2 as <- <-. intros E. apply (Hm r1 c1); auto.
    apply same_unit_sym. exact Hu.
  - apply Hcons; auto.
Qed.

(** ** The candidate loop *)

Lemma seq19_nonzero : Forall (fun n => n <> 0) (seq 1 9).
Proof. apply Forall_forall. intros n Hn. apply list_elem_of_In, in_seq in Hn. lia. Qed.

Section TryNums.
Variables (rec : grid -> bool * grid) (b : grid) (r c : nat).
Hypothesis Hg : in_grid b r c.
Hypothesis H0 : cell b r c = 0.
(** A failed recursive call hands back the board it was given. *)
Hypothesis Hrec_false :
  forall n b', n <> 0 -> rec (set_cell b r c n) = (false, b') -> b' = set_cell b r c n.

Lemma reset_after_place n : set_cell (set_cell b r c n) r c 0 = b.
Proof.
  rewrite set_set. transitivity (set_cell b r c (cell b r c)).
  - now rewrite H0.
  - now apply set_id.
Qed.

Lemma try_nums_false nums b' :
  Forall (fun n => n <> 0) nums -> try_nums rec r c nums b = (false, b') -> b' = b.
Proof.
  induction nums as [|n nums IH]; intros Hnz Ht; simpl in Ht.
  - congruence.
  - inversion Hnz as [|? ? Hn Hnz']; subst.
    destruct (_is_valid b r c n); [|now apply IH].
    destruct (rec (set_cell b r c n)) as [[|] b''] eqn:E; [discriminate|].
    rewrite (Hrec_false n b'' Hn E), reset_after_place in Ht. now apply IH.
Qed.

Lemma try_nums_true nums b' :
  Forall (fun n => n <> 0) nums -> try_nums rec r c nums b = (true, b') ->
  exists n, In n nums /\ _is_valid b r c n = true /\ rec (set_cell b r c n) = (true, b').
Proof.
  induction nums as [|n nums IH]; intros Hnz Ht; simpl in Ht.
  - congruence.
  - inversion Hnz as [|? ? Hn Hnz']; subst.
    destruct (_is_valid b r c n) eqn:Hv.
    + destruct (rec (set_cell b r c n)) as [[|] b''] eqn:E.
      * inversion Ht; subst. exists n. simpl. auto.
      * rewrite (Hrec_false n b'' Hn E), reset_after_place in Ht.
        destruct (IH Hnz' Ht) as (m & Hm & Hmv & Hmr). exists m. simpl. auto.
    + destruct (IH Hnz' Ht) as (m & Hm & Hmv & Hmr). exists m. simpl. auto.
Qed.

Lemma try_nums_complete nums v :
  Forall (fun n => n <> 0) nums -> In v nums -> _is_valid b r c v = true ->
  fst (rec (set_cell b r c v)) = true -> fst (try_nums rec r c nums b) = true.
Proof.
  induction nums as [|n nums IH]; intros Hnz Hin Hv Hrv; [destruct Hin|].
  inversion Hnz as [|? ? Hn Hnz']; subst. simpl.
  destruct Hin as [E0|Hin].
  - subst n. rewrite Hv. destruct (rec (set_cell b r c v)) as [[|] b''] eqn:E; simpl in *; congruence.
  - destruct (_is_valid b r c n); [|now apply IH].
    destruct (rec (set_cell b r c n)) as [[|] b''] eqn:E; [reflexivity|].
    rewrite (Hrec_false n b'' Hn E), reset_after_place. now apply IH.
Qed.
End TryNums.

(** ** [solve] *)

Lemma solve_S fuel b :
  solve (S fuel) b =
  match find_empty b with
  | None => (true, b)
  | Some (row, col) => try_nums (solve fuel) row col (seq 1 9) b
  end.
Proof. reflexivity. Qed.

Lemma solve_false fuel : forall b b',
  wf_grid b = true -> zeros b < fuel -> solve fuel b = (false, b') -> b' = b.
Proof.
  induction fuel as [|fuel IH]; intros b b' Hwf Hz Hs; [lia|].
  simpl in Hs. destruct (find_empty b) as [[r c]|] eqn:E; [|discriminate].
  destruct (find_empty_some _ _ _ E) as (Hr & Hc & H0).
  pose proof (wf_in_grid b r c Hwf Hr Hc) as Hg.
  apply (try_nums_false (solve fuel) b r c Hg H0) with (nums := seq 1 9);
    auto using seq19_nonzero.
  intros n b'' Hn Hs'. apply IH; auto.
  - now rewrite wf_grid_set.
  - rewrite (zeros_set b r c n) in Hz; auto. lia.
Qed.

(** What a successful run leaves: a full grid that keeps the filled
    cells, puts one of 1..9 in every empty one, and keeps the filled
    cells' consistency. *)
Definition fills (b b' : grid) : Prop :=
  wf_grid b' = true /\ find_empty b' = None /\
  (forall r c, r < 9 -> c < 9 -> cell b r c <> 0 -> cell b' r c = cell b r c) /\
  (forall r c, r < 9 -> c < 9 -> cell b r c = 0 -> 1 <= cell b' r c <= 9) /\
  (consistent b -> consistent b').

Lemma solve_true fuel : forall b b',
  wf_grid b = true -> zeros b < fuel -> solve fuel b = (true, b') -> fills b b'.
Proof.
  induction fuel as [|fuel IH]; intros b b' Hwf Hz Hs; [lia|].
  simpl in Hs. destruct (find_empty b) as [[r c]|] eqn:E.
  - destruct (find_empty_some _ _ _ E) as (Hr & Hc & H0).
    pose proof (wf_in_grid b r c Hwf Hr Hc) as Hg.
    assert (Hzs : zeros b = S (zeros (set_cell b r c 1))) by (apply zeros_set; auto).
    destruct (try_nums_true (solve fuel) b r c Hg H0) with (nums := seq 1 9) (b' := b')
      as (n & Hn & Hv & Hs'); auto using seq19_nonzero.
    { intros m b'' Hm Hf. apply (solve_false fuel); auto.
      - now rewrite wf_grid_set.
      - rewrite (zeros_set b r c m) in Hz; auto. lia. }
    apply in_seq in Hn.
    assert (Hzn : zeros b = S (zeros (set_cell b r c n))) by (apply zeros_set; auto; lia).
    destruct (IH (set_cell b r c n) b') as (Hwf' & Hfull & Hkeep & Hnew & Hcons);
      auto; [now rewrite wf_grid_set | lia |].
    split; [exact Hwf'|]. split; [exact Hfull|]. split; [|split].
    + intros r' c' Hr' Hc' Hnz. rewrite Hkeep; auto.
      * rewrite cell_set_ne; auto. intros [= <- <-]. contradiction.
      * rewrite cell_set_ne; auto. intros [= <- <-]. contradiction.
    + intros r' c' Hr' Hc' Hz'.
      destruct (decide ((r, c) = (r', c'))) as [[= <- <-]|Hne].
      * rewrite Hkeep; auto; rewrite cell_set_eq; auto; lia.
      * apply Hnew; auto. rewrite cell_set_ne; auto.
    + intros Hc0. apply Hcons. apply consistent_set; auto.
  - inversion Hs; subst. split; [exact Hwf|]. split; [exact E|].
    split; [auto|]. split; [|auto].
    intros r' c' Hr' Hc' Hz0. exfalso. exact (proj1 (find_empty_none b') E r' c' Hr' Hc' Hz0).
Qed.

Lemma solve_complete fuel : forall b,
  wf_grid b = true -> zeros b < fuel -> has_completion b -> fst (solve fuel b) = true.
Proof.
  induction fuel as [|fuel IH]; intros b Hwf Hz (g & (Hgwf & Hrange & Hdist) & Hext); [lia|].
  rewrite solve_S. destruct (find_empty b) as [[r c]|] eqn:E; [|reflexivity].
  destruct (find_empty_some _ _ _ E) as (Hr & Hc & H0).
  pose proof (wf_in_grid b r c Hwf Hr Hc) as Hg.
  set (v := cell g r c). pose proof (Hrange r c Hr Hc) as Hvr.
  apply (try_nums_complete (solve fuel) b r c Hg H0) with (v := v);
    auto using seq19_nonzero.
  - intros m b'' Hm Hf. apply (solve_false fuel); auto.
    + now rewrite wf_grid_set.
    + rewrite (zeros_set b r c m) in Hz; auto. lia.
  - apply in_seq. unfold v. lia.
  - apply is_valid_spec; auto. intros r' c' Hr' Hc' Hne Hu.
    destruct (decide (cell b r' c' = 0)) as [Hz'|Hnz].
    + unfold v. lia.
    + rewrite <- (Hext r' c' Hr' Hc' Hnz). apply Hdist; auto.
  - apply IH.
    + now rewrite wf_grid_set.
    + rewrite (zeros_set b r c v) in Hz; auto; unfold v in *; lia.
    + exists g. split; [split; auto|].
      intros r' c' Hr' Hc'. rewrite (cell_set b r c r' c' v Hg).
      case_decide as Hrc; [injection Hrc as <- <-; reflexivity|].
      apply Hext; auto.
Qed.

(** ** From a successful run to a valid solution *)

Lemma filter_length_le_l {A} (f : A -> bool) (l : list A) : length (List.filter f l) <= length l.
Proof. induction l as [|x l IH]; simpl; [lia|]. destruct (f x); simpl; lia. Qed.

Lemma zeros_lt_82 b : zeros b < 82.
Proof.
  unfold zeros. pose proof (filter_length_le_l (fun '(r, c) => cell b r c =? 0) all_cells).
  change (length all_cells) with 81 in H. lia.
Qed.

Lemma cells_le9_spec b : cells_le9 b = true -> forall r c, r < 9 -> c < 9 -> cell b r c <= 9.
Proof.
  unfold cells_le9. rewrite forallb_forall. intros H r c Hr Hc.
  apply Nat.leb_le. apply (H (r, c)). apply in_all_cells. auto.
Qed.

Lemma completion_consistent b : has_completion b -> consistent b.
Proof.
  intros (g & (_ & _ & Hdist) & Hext) r c r' c' Hr Hc Hr' Hc' Hne Hu Hnz.
  destruct (decide (cell b r' c' = 0)) as [->|Hnz']; [lia|].
  rewrite <- (Hext r c), <- (Hext r' c'); auto.
Qed.

Lemma fills_valid b b' :
  cells_le9 b = true -> consistent b -> fills b b' -> valid_solution b'.
Proof.
  intros Hle Hcons (Hwf & Hfull & Hkeep & Hnew & Hc). pose proof (Hc Hcons) as Hcons'.
  split; [exact Hwf|]. split.
  - intros r c Hr Hc0. destruct (decide (cell b r c = 0)) as [Hz|Hnz].
    + auto.
    + rewrite Hkeep by auto. pose proof (cells_le9_spec b Hle r c Hr Hc0). lia.
  - intros r c r' c' Hr Hc0 Hr' Hc' Hne Hu. apply Hcons'; auto.
    exact (proj1 (find_empty_none b') Hfull r c Hr Hc0).
Qed.

(** The grid with a 1 in every cell: full, and breaking every constraint. *)
Definition ones_grid : grid := repeat (repeat 1 9) 9.

Lemma ones_grid_no_completion : ~ has_completion ones_grid.
Proof.
  intros (g & (_ & _ & Hdist) & Hext).
  apply (Hdist 0 0 0 1); try lia.
  - intros [=].
  - left. reflexivity.
  - rewrite (Hext 0 0), (Hext 0 1); try lia; vm_compute; congruence.
Qed.

(** C1 (amended).  For every 9x9 grid with cells in 0..9:
    - if its filled cells admit a Sudoku completion, [_solve_sudoku]
      succeeds and leaves a valid full grid that keeps every filled cell;
    - whenever it fails, the grid is exactly the original one;
    - if the filled cells do not already break a constraint and there is
      no completion, it fails.
    Without that last proviso failure is not guaranteed: see
    [solve_sudoku_inconsistent_full]. *)
Theorem solve_sudoku_spec (b : grid) :
  wf_grid b = true -> cells_le9 b = true ->
  (has_completion b ->
     exists b', _solve_sudoku b = (true, b') /\ valid_solution b' /\ extends b b') /\
  (forall b', _solve_sudoku b = (false, b') -> b' = b) /\
  (consistent b -> ~ has_completion b -> fst (_solve_sudoku b) = false).
Proof.
  intros Hwf Hle. unfold _solve_sudoku. pose proof (zeros_lt_82 b) as Hz. split; [|split].
  - intros Hcomp. pose proof (solve_complete 82 b Hwf Hz Hcomp) as Hok.
    destruct (solve 82 b) as [ok b'] eqn:E. simpl in Hok. subst ok.
    pose proof (solve_true 82 b b' Hwf Hz E) as Hf.
    exists b'. split; [reflexivity|]. split.
    + apply (fills_valid b); auto. now apply completion_consistent.
    + destruct Hf as (_ & _ & Hkeep & _). intros r c Hr Hc Hnz. auto.
  - intros b'. apply solve_false; auto.
  - intros Hcons Hno. destruct (solve 82 b) as [[|] b'] eqn:E; [|reflexivity].
    exfalso. apply Hno. pose proof (solve_true 82 b b' Hwf Hz E) as Hf.
    exists b'. split.
    + apply (fills_valid b); auto.
    + destruct Hf as (_ & _ & Hkeep & _). intros r c Hr Hc Hnz. auto.
Qed.

Lemma solve_sudoku_spec_witness :
  wf_grid zero_grid = true /\ cells_le9 zero_grid = true /\
  (forall b', _solve_sudoku zero_grid = (false, b') -> b' = zero_grid).
Proof.
  split; [reflexivity|]. split; [reflexivity|].
  apply (solve_sudoku_spec zero_grid); reflexivity.
Defined.

(** C1 as stated fails: the all-ones grid admits no completion, yet
    [_solve_sudoku] reports success on it. *)
Lemma solve_sudoku_inconsistent_full :
  wf_grid ones_grid = true /\ cells_le9 ones_grid = true /\
  ~ has_completion ones_grid /\ _solve_sudoku ones_grid = (true, ones_grid).
Proof.
  split; [reflexivity|]. split; [reflexivity|]. split.
  - exact ones_grid_no_completion.
  - vm_compute. reflexivity.
Qed.

(** C10.  On a grid with no empty cell [_solve_sudoku] reports success
    and changes nothing, whatever the values: the filled cells are never
    checked against each other. *)
Theorem solve_sudoku_full_grid (b : grid) :
  find_empty b = None -> _solve_sudoku b = (true, b).
Proof. intros H. unfold _solve_sudoku. rewrite solve_S, H. reflexivity. Qed.

Lemma solve_sudoku_full_grid_witness :
  find_empty ones_grid = None /\ ~ has_completion ones_grid /\
  _solve_sudoku ones_grid = (true, ones_grid).
Proof.
  split; [vm_compute; reflexivity|]. split; [exact ones_grid_no_completion|].
  apply solve_sudoku_full_grid. vm_compute. reflexivity.
Defined.

(** ** Rows, columns and boxes *)

Definition row_cells (i : nat) : list (nat * nat) := map (fun c => (i, c)) (seq 0 9).
Definition col_cells (j : nat) : list (nat * nat) := map (fun r => (r, j)) (seq 0 9).
Definition box_cells (k : nat) : list (nat * nat) :=
  flat_map (fun i => map (fun j => (3 * (k / 3) + i, 3 * (k mod 3) + j)) (seq 0 3)) (seq 0 3).

Definition unit_vals (g : grid) (cells : list (nat * nat)) : list nat :=
  map (fun p => cell g p.1 p.2) cells.

(** Row [i], column [j] and box [k] (numbered row-major) of a grid. *)
Definition row_vals (g : grid) (i : nat) : list nat := unit_vals g (row_cells i).
Definition col_vals (g : grid) (j : nat) : list nat := unit_vals g (col_cells j).
Definition box_vals (g : grid) (k : nat) : list nat := unit_vals g (box_cells k).

#[global] Instance same_unit_dec r c r' c' : Decision (same_unit r c r' c').
Proof. unfold same_unit. solve_decision. Defined.

Definition unit_cells_ok (cells : list (nat * nat)) : bool :=
  bool_decide (NoDup cells) && (length cells =? 9) &&
  forallb (fun p => (p.1 <? 9) && (p.2 <? 9) &&
    forallb (fun q => bool_decide (same_unit p.1 p.2 q.1 q.2)) cells) cells.

Lemma units_ok :
  forallb (fun k => unit_cells_ok (row_cells k) && unit_cells_ok (col_cells k) &&
                    unit_cells_ok (box_cells k)) (seq 0 9) = true.
Proof. vm_compute. reflexivity. Qed.

Lemma unit_perm g cells :
  valid_solution g -> unit_cells_ok cells = true ->
  Permutation (unit_vals g cells) (seq 1 9).
Proof.
  intros (_ & Hrange & Hdist) Hok. unfold unit_cells_ok in Hok.
  apply andb_true_iff in Hok as [Hok Hall]. apply andb_true_iff in Hok as [Hnd Hlen].
  apply bool_decide_eq_true, NoDup_ListNoDup in Hnd. apply Nat.eqb_eq in Hlen.
  rewrite forallb_forall in Hall.
  assert (Hin : forall p, In p cells -> p.1 < 9 /\ p.2 < 9 /\
                 forall q, In q cells -> same_unit p.1 p.2 q.1 q.2).
  { intros p Hp. specialize (Hall p Hp).
    apply andb_true_iff in Hall as [Hp12 Hq]. apply andb_true_iff in Hp12 as [H1 H2].
    apply Nat.ltb_lt in H1, H2. split; [auto|]. split; [auto|].
    rewrite forallb_forall in Hq. intros q Hq'. apply (bool_decide_eq_true_1 _), Hq, Hq'. }
  apply NoDup_Permutation_bis.
  - apply NoDup_map_NoDup_ForallPairs; [|exact Hnd].
    intros [r c] [r' c'] Hp Hq Heq. simpl in Heq.
    destruct (decide ((r', c') = (r, c))) as [E|Hne]; [auto|].
    destruct (Hin _ Hp) as (Hr & Hc & Hu). destruct (Hin _ Hq) as (Hr' & Hc' & _).
    exfalso. apply (Hdist r c r' c'); auto. apply (Hu (r', c') Hq).
  - unfold unit_vals. rewrite length_map, length_seq. lia.
  - intros v Hv. apply in_map_iff in Hv as ([r c] & <- & Hp).
    destruct (Hin _ Hp) as (Hr & Hc & _). cbn [fst snd] in *.
    pose proof (Hrange r c Hr Hc). apply in_seq. lia.
Qed.

Lemma valid_solution_units g :
  valid_solution g ->
  forall k, k < 9 ->
    Permutation (row_vals g k) (seq 1 9) /\ Permutation (col_vals g k) (seq 1 9) /\
    Permutation (box_vals g k) (seq 1 9).
Proof.
  intros Hv k Hk. pose proof units_ok as Hu. rewrite forallb_forall in Hu.
  specialize (Hu k (proj2 (in_seq 9 0 k) ltac:(lia))).
  apply andb_true_iff in Hu as [Hu Hb]. apply andb_true_iff in Hu as [Hr Hc].
  unfold row_vals, col_vals, box_vals. auto using unit_perm.
Qed.

(** ** What the generator hands to [_new_game] *)

Definition le9 (b : grid) : Prop := forall r c, r < 9 -> c < 9 -> cell b r c <= 9.

Lemma le9_set b r c v : wf_grid b = true -> le9 b -> v <= 9 -> le9 (set_cell b r c v).
Proof.
  intros Hwf Hle Hv r' c' Hr' Hc'.
  destruct (decide ((r, c) = (r', c'))) as [E|Hne].
  - injection E as -> ->. rewrite cell_set_eq; auto using wf_in_grid.
  - rewrite cell_set_ne by exact Hne. auto.
Qed.

Lemma default_le9 (nums : list nat) i :
  Forall (fun x => x <= 9) nums -> default 0 (nums !! i) <= 9.
Proof.
  intros H. destruct (nums !! i) eqn:E; simpl; [|lia].
  exact (Forall_lookup_1 _ _ _ _ H E).
Qed.

Lemma shuffle_le9 urandom is : forall nums st,
  Forall (fun x => x <= 9) nums ->
  Forall (fun x => x <= 9) (shuffle urandom is nums st).1.
Proof.
  induction is as [|i is IH]; intros nums st H; simpl; [exact H|].
  unfold rbind. destruct (_randint urandom 0 (Z.of_nat i) st) as [j st'].
  apply IH. apply Forall_insert; [apply Forall_insert|]; auto using default_le9.
Qed.

Lemma fill_box_ok box nums b :
  Forall (fun x => x <= 9) nums -> wf_grid b = true -> le9 b ->
  wf_grid (fill_box box nums b) = true /\ le9 (fill_box box nums b).
Proof.
  intros Hn. unfold fill_box.
  generalize (flat_map (fun i => map (fun j => (i, j)) (seq 0 3)) (seq 0 3)).
  intros offs. revert b. induction offs as [|[i j] offs IH]; intros b Hwf Hle; simpl; auto.
  apply IH.
  - now rewrite wf_grid_set.
  - apply le9_set; auto using default_le9.
Qed.

Lemma seed_boxes_ok urandom boxes : forall b st,
  wf_grid b = true -> le9 b ->
  wf_grid (seed_boxes urandom boxes b st).1 = true /\ le9 (seed_boxes urandom boxes b st).1.
Proof.
  induction boxes as [|box boxes IH]; intros b st Hwf Hle; cbn [seed_boxes];
    [unfold rret; auto|].
  unfold rbind. destruct (shuffle urandom (rev (seq 1 8)) (seq 1 9) st) as [nums st'] eqn:E.
  assert (Hn : Forall (fun x => x <= 9) nums).
  { change nums with (nums, st').1. rewrite <- E. apply shuffle_le9.
    apply Forall_forall. intros x Hx. apply list_elem_of_In, in_seq in Hx. lia. }
  destruct (fill_box_ok box nums b Hn Hwf Hle). apply IH; auto.
Qed.

Lemma zero_grid_ok : wf_grid zero_grid = true /\ le9 zero_grid.
Proof.
  split; [reflexivity|]. intros r c. apply cells_le9_spec. reflexivity.
Qed.

Lemma generate_ok urandom fuel : forall st S st',
  _generate_full_board urandom fuel st = (Some S, st') ->
  wf_grid S = true /\ le9 S /\ find_empty S = None.
Proof.
  induction fuel as [|fuel IH]; intros st S st' Hg; cbn [_generate_full_board] in Hg;
    unfold rret, rbind in Hg; [discriminate|].
  destruct (seed_boxes urandom [0; 3; 6] zero_grid st) as [b0 st0] eqn:Es.
  destruct (_solve_sudoku b0) as [[|] b1] eqn:Ev; cbn [negb] in Hg; [|eapply IH; eauto].
  inversion Hg; subst b1.
  destruct zero_grid_ok as [Hz1 Hz2].
  pose proof (seed_boxes_ok urandom [0; 3; 6] zero_grid st Hz1 Hz2) as Hsb.
  rewrite Es in Hsb. destruct Hsb as [Hwf0 Hle0]. simpl in Hwf0, Hle0.
  destruct (solve_true 82 b0 S Hwf0 (zeros_lt_82 b0) Ev)
    as (Hwf & Hfull & Hkeep & Hnew & _).
  split; [exact Hwf|]. split; [|exact Hfull].
  intros r c Hr Hc. destruct (decide (cell b0 r c = 0)) as [H0|H0].
  - pose proof (Hnew r c Hr Hc H0). lia.
  - rewrite Hkeep; auto.
Qed.

Lemma validate_cells_ok cells : forall b ok b',
  wf_grid b = true -> (forall p, In p cells -> p.1 < 9 /\ p.2 < 9) ->
  validate_cells cells b = (ok, b') ->
  b' = b /\
  (ok = true -> forall r c, In (r, c) cells -> cell b r c <> 0 ->
                _is_valid b r c (cell b r c) = true).
Proof.
  induction cells as [|[r c] cells IH]; intros b ok b' Hwf Hin Hv; simpl in Hv.
  - inversion Hv; subst. split; [reflexivity|]. intros _ r c [].
  - destruct (Hin (r, c) (or_introl eq_refl)) as [Hr Hc]. simpl in Hr, Hc.
    pose proof (wf_in_grid b r c Hwf Hr Hc) as Hg.
    assert (Hback : set_cell (set_cell b r c 0) r c (cell b r c) = b)
      by (rewrite set_set; now apply set_id).
    rewrite is_valid_set_same in Hv by auto. rewrite Hback in Hv.
    assert (Hin' : forall p, In p cells -> p.1 < 9 /\ p.2 < 9) by (intros; apply Hin; right; auto).
    destruct (cell b r c =? 0) eqn:Ez; simpl in Hv.
    + destruct (IH b ok b' Hwf Hin' Hv) as [-> Hok]. split; [reflexivity|].
      intros Htrue r' c' [E|Hrc] Hnz; [|auto].
      injection E as <- <-. apply Nat.eqb_eq in Ez. contradiction.
    + destruct (_is_valid b r c (cell b r c)) eqn:Evalid; simpl in Hv.
      * destruct (IH b ok b' Hwf Hin' Hv) as [-> Hok]. split; [reflexivity|].
        intros Htrue r' c' [E|Hrc] Hnz; [|auto].
        injection E as <- <-. exact Evalid.
      * inversion Hv; subst. split; [reflexivity|]. discriminate.
Qed.

Lemma validated_full_valid S :
  wf_grid S = true -> le9 S -> find_empty S = None -> (_validate_board S).1 = true ->
  valid_solution S /\ (_validate_board S).2 = S.
Proof.
  intros Hwf Hle Hfull Hok. unfold _validate_board in *.
  destruct (validate_cells all_cells S) as [ok S'] eqn:E. simpl in Hok. subst ok.
  destruct (validate_cells_ok all_cells S true S' Hwf) as [-> Hv]; auto.
  { intros [r c] Hp. apply in_all_cells in Hp. auto. }
  pose proof (proj1 (find_empty_none S) Hfull) as Hnz.
  split; [|reflexivity]. split; [exact Hwf|]. split.
  - intros r c Hr Hc. specialize (Hle r c Hr Hc). specialize (Hnz r c Hr Hc). lia.
  - intros r c r' c' Hr Hc Hr' Hc' Hne Hu.
    assert (Hval : _is_valid S r c (cell S r c) = true)
      by (apply Hv; auto; apply in_all_cells; auto).
    exact (proj1 (is_valid_spec S r c _ Hr Hc) Hval r' c' Hr' Hc' Hne Hu).
Qed.

Lemma new_game_solution_valid urandom fuel : forall now s s',
  _new_game urandom fuel now s = Some s' -> valid_solution (solution s').
Proof.
  induction fuel as [|fuel IH]; intros now s s' Hn; cbn [_new_game] in Hn; [discriminate|].
  destruct (_generate_full_board urandom (S fuel) (rng s)) as [[S0|] st] eqn:Eg;
    [|discriminate].
  destruct (generate_ok urandom (S fuel) (rng s) S0 st Eg) as (Hwf & Hle & Hfull).
  destruct (_validate_board S0) as [[|] S1] eqn:Ev; cbn [negb] in Hn; [|eapply IH; eauto].
  destruct (validated_full_valid S0 Hwf Hle Hfull) as [Hvalid HS1]; [now rewrite Ev|].
  rewrite Ev in HS1. simpl in HS1. subst S1.
  destruct (carve_puzzle urandom S0 (difficulty s) st) as [[b g] st'].
  inversion Hn; subst. exact Hvalid.
Qed.

(** C2.  Every solution a new game starts from (a board produced by
    [_generate_full_board] that passed [_validate_board]) has each of
    1..9 exactly once in each of its nine rows, nine columns and nine
    boxes. *)
Theorem new_game_solution_units urandom fuel now s s' :
  _new_game urandom fuel now s = Some s' ->
  forall k, k < 9 ->
    Permutation (row_vals (solution s') k) (seq 1 9) /\
    Permutation (col_vals (solution s') k) (seq 1 9) /\
    Permutation (box_vals (solution s') k) (seq 1 9).
Proof.
  intros Hn. apply valid_solution_units. eapply new_game_solution_valid. exact Hn.
Qed.

Lemma new_game_solution_units_witness :
  _new_game None 1 1000 sample_start = Some sample_game /\ 4 < 9 /\
  Permutation (row_vals (solution sample_game) 4) (seq 1 9) /\
  Permutation (col_vals (solution sample_game) 4) (seq 1 9) /\
  Permutation (box_vals (solution sample_game) 4) (seq 1 9).
Proof.
  assert (Hn : _new_game None 1 1000 sample_start = Some sample_game)
    by (vm_compute; reflexivity).
  split; [exact Hn|]. split; [lia|].
  apply (new_game_solution_units None 1 1000 sample_start sample_game Hn 4). lia.
Defined.

(** ** [_randint] stays in range *)

Lemma randint_bounds urandom a b st :
  (a <= b)%Z -> (a <= (_randint urandom a b st).1 <= b)%Z.
Proof.
  intros Hab. unfold _randint, rbind, rret.
  destruct (_getrandbits urandom 30 st) as [r st']. simpl.
  pose proof (Z.mod_pos_bound r (b - a + 1) ltac:(lia)). lia.
Qed.

(** ** Carving *)

Lemma lookup_map_seq {A} (f : nat -> A) n : forall s i,
  i < n -> map f (seq s n) !! i = Some (f (s + i)).
Proof.
  induction n as [|n IH]; intros s i Hi; [lia|].
  destruct i as [|i]; simpl.
  - now rewrite Nat.add_0_r.
  - rewrite IH by lia. do 2 f_equal. lia.
Qed.

Lemma given_at_make_given P r c :
  r < 9 -> c < 9 -> given_at (make_given P) r c = negb (cell P r c =? 0).
Proof.
  intros Hr Hc. unfold given_at, make_given.
  rewrite (lookup_map_seq _ 9 0 r Hr). cbv beta iota.
  rewrite (lookup_map_seq _ 9 0 c Hc). reflexivity.
Qed.

Lemma zeros_full b : find_empty b = None -> zeros b = 0.
Proof.
  intros H. pose proof (proj1 (find_empty_none b) H) as Hnz. unfold zeros.
  assert (Hall : forall p, In p all_cells -> (let '(r, c) := p in cell b r c =? 0) = false).
  { intros [r c] Hp. apply in_all_cells in Hp. apply Nat.eqb_neq, Hnz; apply Hp. }
  induction all_cells as [|p l IHl]; [reflexivity|]. simpl.
  rewrite (Hall p (or_introl eq_refl)). apply IHl. intros q Hq. apply Hall. right. exact Hq.
Qed.

Lemma zeros_clear b r c :
  r < 9 -> c < 9 -> in_grid b r c -> cell b r c <> 0 ->
  zeros (set_cell b r c 0) = S (zeros b).
Proof.
  intros Hr Hc Hg Hnz.
  rewrite (zeros_set (set_cell b r c 0) r c (cell b r c)); auto.
  - now rewrite set_set, set_id.
  - now apply in_grid_set.
  - now apply cell_set_eq.
Qed.

Lemma remove_loop_spec urandom k : forall cells b st,
  wf_grid b = true -> NoDup cells ->
  (forall p, p ∈ cells -> p.1 < 9 /\ p.2 < 9 /\ cell b p.1 p.2 <> 0) ->
  k <= length cells ->
  wf_grid (remove_loop urandom k cells b st).1 = true /\
  zeros (remove_loop urandom k cells b st).1 = zeros b + k /\
  (forall r c, r < 9 -> c < 9 ->
     cell (remove_loop urandom k cells b st).1 r c = 0 \/
     cell (remove_loop urandom k cells b st).1 r c = cell b r c).
Proof.
  induction k as [|k IH]; intros cells b st Hwf Hnd Hin Hk; cbn [remove_loop].
  - unfold rret. simpl. split; [exact Hwf|]. split; [lia|]. auto.
  - destruct cells as [|p0 cells0] eqn:Ecells; [simpl in Hk; lia|].
    rewrite <- Ecells. rewrite <- Ecells in Hnd, Hin, Hk. unfold rbind.
    pose proof (randint_bounds urandom 0 (Z.of_nat (length cells) - 1) st) as Hb.
    destruct (_randint urandom 0 (Z.of_nat (length cells) - 1) st) as [idx st'].
    simpl in Hb.
    assert (Hlen : 1 <= length cells) by (rewrite Ecells; simpl; lia).
    specialize (Hb ltac:(lia)).
    assert (Hidx : Z.to_nat idx < length cells) by lia.
    destruct (lookup_lt_is_Some_2 cells (Z.to_nat idx) Hidx) as [[r c] E].
    rewrite E.
    pose proof (delete_Permutation cells (Z.to_nat idx) (r, c) E) as Hperm.
    assert (Hrc : (r, c) ∈ cells) by (rewrite Hperm; left).
    destruct (Hin _ Hrc) as (Hr & Hc & Hnz). simpl in Hr, Hc, Hnz.
    rewrite Hperm in Hnd. apply NoDup_cons in Hnd as [Hnotin Hnd'].
    pose proof (wf_in_grid b r c Hwf Hr Hc) as Hg.
    destruct (IH (delete (Z.to_nat idx) cells) (set_cell b r c 0) st')
      as (Hwf' & Hz' & Hkeep'); auto.
    + now rewrite wf_grid_set.
    + intros q Hq. assert (Hq' : q ∈ cells) by (rewrite Hperm; right; exact Hq).
      destruct (Hin q Hq') as (Hqr & Hqc & Hqnz). split; [auto|]. split; [auto|].
      rewrite cell_set_ne; auto. destruct q as [qr qc]. simpl.
      intros Eq. injection Eq as <- <-. contradiction.
    + rewrite length_delete by (eexists; exact E). lia.
    + split; [exact Hwf'|]. split.
      * rewrite Hz', zeros_clear; auto.
      * intros r' c' Hr' Hc'. destruct (Hkeep' r' c' Hr' Hc') as [H0|H0]; [auto|].
        rewrite H0. rewrite (cell_set b r c r' c' 0 Hg). case_decide; auto.
Qed.

Lemma remove_count_values d : (0 <= d < 3)%Z -> [40; 50; 60] !! Z.to_nat d = Some (remove_count d).
Proof.
  intros Hd. unfold remove_count.
  assert (d = 0 \/ d = 1 \/ d = 2)%Z as [-> | [-> | ->] ] by lia; reflexivity.
Qed.

(** C4.  Carving a full grid [S] at difficulty [d] (lines 173-175)
    leaves exactly [[40, 50, 60][d]] empty cells; every filled cell
    still holds the value of [S]; and [given] is true exactly at the
    filled cells. *)
Theorem carve_puzzle_spec urandom (S : grid) (d : Z) (st : rng_state) :
  wf_grid S = true -> find_empty S = None -> (0 <= d < 3)%Z ->
  let '((P, given), _) := carve_puzzle urandom S d st in
  [40; 50; 60] !! Z.to_nat d = Some (zeros P) /\
  (forall r c, r < 9 -> c < 9 -> cell P r c <> 0 -> cell P r c = cell S r c) /\
  (forall r c, r < 9 -> c < 9 -> given_at given r c = true <-> cell P r c <> 0).
Proof.
  intros Hwf Hfull Hd. unfold carve_puzzle, rbind, rret, _remove_numbers.
  pose proof (remove_count_values d Hd) as Hrc.
  assert (Hle : remove_count d <= 81)
    by (assert (d = 0 \/ d = 1 \/ d = 2)%Z as [-> | [-> | ->] ] by lia; cbv; lia).
  destruct (remove_loop_spec urandom (remove_count d) all_cells S st)
    as (_ & Hz & Hkeep); auto.
  - apply all_cells_NoDup.
  - intros [r c] Hp. apply list_elem_of_In, in_all_cells in Hp as [Hr Hc].
    simpl. split; [auto|]. split; [auto|].
    exact (proj1 (find_empty_none S) Hfull r c Hr Hc).
  - destruct (remove_loop urandom (remove_count d) all_cells S st) as [P st'].
    simpl in Hz, Hkeep. rewrite (zeros_full S Hfull) in Hz.
    split; [rewrite Hrc, Hz; reflexivity|]. split.
    + intros r c Hr Hc Hnz. destruct (Hkeep r c Hr Hc); [contradiction|auto].
    + intros r c Hr Hc. rewrite given_at_make_given by auto.
      destruct (Nat.eqb_spec (cell P r c) 0); simpl; split; congruence.
Qed.

Lemma carve_puzzle_spec_witness :
  wf_grid (solution sample_game) = true /\ find_empty (solution sample_game) = None /\
  (0 <= 1 < 3)%Z /\
  [40; 50; 60] !! 1 = Some (zeros (carve_puzzle None (solution sample_game) 1 sample_st).1.1).
Proof.
  assert (Hw : wf_grid (solution sample_game) = true) by (vm_compute; reflexivity).
  assert (Hf : find_empty (solution sample_game) = None) by (vm_compute; reflexivity).
  split; [exact Hw|]. split; [exact Hf|]. split; [lia|].
  pose proof (carve_puzzle_spec None (solution sample_game) 1 sample_st Hw Hf ltac:(lia)) as Hc.
  destruct (carve_puzzle None (solution sample_game) 1 sample_st) as [[P g] st'].
  exact (proj1 Hc).
Defined.

(** ** The given cells keep the solution's values *)

Definition puzzle (s : state) : grid * grid * list (list bool) :=
  (board s, solution s, given s).

Definition given_ok (s : state) : Prop :=
  forall r c, given_at (given s) r c = true -> cell (board s) r c = cell (solution s) r c.

Lemma given_ok_puzzle t s : given_ok s -> puzzle t = puzzle s -> given_ok t.
Proof.
  unfold puzzle. intros H E. injection E as Hb Hs Hg.
  intros r c. rewrite Hb, Hs, Hg. apply H.
Qed.

Lemma cell_set_cases b r c v r' c' :
  cell (set_cell b r c v) r' c' = v \/ cell (set_cell b r c v) r' c' = cell b r' c'.
Proof.
  destruct (decide ((r, c) = (r', c'))) as [E|E]; [|right; now apply cell_set_ne].
  injection E as <- <-. unfold set_cell, cell.
  destruct (b !! r) as [row|] eqn:Hr; [|rewrite Hr; right; reflexivity].
  assert (r < length b) by (apply lookup_lt_Some in Hr; lia).
  rewrite list_lookup_insert_eq by lia.
  destruct (decide (c < length row)).
  - left. rewrite list_lookup_insert_eq by lia. reflexivity.
  - right. rewrite list_insert_ge by lia. reflexivity.
Qed.

Lemma remove_loop_keep urandom k : forall cells b st r c,
  cell (remove_loop urandom k cells b st).1 r c = 0 \/
  cell (remove_loop urandom k cells b st).1 r c = cell b r c.
Proof.
  induction k as [|k IH]; intros cells b st r c; cbn [remove_loop].
  - right. reflexivity.
  - destruct cells as [|p cells0]; [right; reflexivity|].
    unfold rbind. destruct (_randint urandom _ _ st) as [idx st'].
    cbv beta zeta.
    destruct ((p :: cells0) !! Z.to_nat idx) as [[r0 c0]|]; [|right; reflexivity].
    destruct (IH (delete (Z.to_nat idx) (p :: cells0)) (set_cell b r0 c0 0) st' r c)
      as [H|H]; [left; exact H|].
    rewrite H. apply cell_set_cases.
Qed.

Lemma lookup_map_seq_Some {A} (f : nat -> A) n s i x :
  map f (seq s n) !! i = Some x -> x = f (s + i).
Proof.
  intros E. pose proof (lookup_lt_Some _ _ _ E) as Hi.
  rewrite length_map, length_seq in Hi.
  rewrite (lookup_map_seq f n s i Hi) in E. congruence.
Qed.

Lemma given_at_make_given_true P r c :
  given_at (make_given P) r c = true -> cell P r c <> 0.
Proof.
  unfold given_at, make_given.
  destruct (map _ (seq 0 9) !! r) as [row|] eqn:Er; [|discriminate].
  apply lookup_map_seq_Some in Er. subst row.
  destruct (map _ (seq 0 9) !! c) as [v|] eqn:Ec; [|discriminate].
  apply lookup_map_seq_Some in Ec. subst v. simpl.
  intros H. apply negb_true_iff, Nat.eqb_neq in H. exact H.
Qed.

Lemma new_game_given_ok urandom fuel : forall now s s',
  _new_game urandom fuel now s = Some s' -> given_ok s'.
Proof.
  induction fuel as [|fuel IH]; intros now s s' Hn; cbn [_new_game] in Hn; [discriminate|].
  destruct (_generate_full_board urandom (S fuel) (rng s)) as [[S0|] st]; [|discriminate].
  destruct (_validate_board S0) as [[|] S1]; cbn [negb] in Hn; [|eapply IH; eauto].
  unfold carve_puzzle, rbind, rret, _remove_numbers in Hn.
  pose proof (remove_loop_keep urandom (remove_count (difficulty s)) all_cells S1 st) as Hk.
  destruct (remove_loop urandom (remove_count (difficulty s)) all_cells S1 st) as [P st'].
  inversion Hn; subst. intros r c Hg. simpl in *.
  apply given_at_make_given_true in Hg. destruct (Hk r c); [contradiction|assumption].
Qed.

Lemma puzzle_to_gameover s : puzzle (_to_gameover s) = puzzle s.
Proof. unfold _to_gameover. now destruct (_ <? _)%Z. Qed.

Lemma puzzle_draw_toast now s : puzzle (_draw_toast now s) = puzzle s.
Proof. unfold _draw_toast. now repeat case_match. Qed.

Lemma finish_given_ok t :
  given_ok t -> given_ok (if _is_complete t then _to_gameover t else t).
Proof.
  intros H. destruct (_is_complete t); [|exact H].
  apply (given_ok_puzzle _ t H), puzzle_to_gameover.
Qed.

(** Writing into a cell that is not given keeps the invariant, whatever
    the value. *)
Lemma given_ok_write s r c v :
  given_ok s -> given_at (given s) r c = false ->
  given_ok (set_board (set_cell (board s) r c v) s).
Proof.
  intros H G r' c' Hg. simpl in *.
  rewrite cell_set_ne; [now apply H|].
  intros E. injection E as <- <-. congruence.
Qed.

Lemma place_number_given_ok now num s : given_ok s -> given_ok (_place_number now num s).
Proof.
  intros H. unfold _place_number. cbv zeta.
  destruct (given_at (given s) _ _) eqn:G; [exact H|].
  pose proof (given_ok_write s _ _ num H G) as H1.
  apply finish_given_ok. case_match; [|exact H1].
  apply (given_ok_puzzle _ _ H1). reflexivity.
Qed.

Lemma hint_given_ok now s : given_ok s -> given_ok (_hint now s).
Proof.
  intros H. unfold _hint. cbv zeta.
  destruct (given_at (given s) _ _) eqn:G; [exact H|]. cbn [negb].
  pose proof (given_ok_write s _ _ (cell (solution s) (Z.to_nat (cursor_y s))
    (Z.to_nat (cursor_x s))) H G) as H1.
  apply finish_given_ok. apply (given_ok_puzzle _ _ H1). reflexivity.
Qed.

Lemma cycle_attempts_given_ok now current skip attempts s :
  given_ok s -> given_ok (cycle_attempts now current skip attempts s).
Proof.
  induction attempts as [|a attempts IH]; intros H; simpl; [exact H|].
  case_match; [now apply place_number_given_ok|now apply IH].
Qed.

Lemma cycle_number_given_ok now s : given_ok s -> given_ok (_cycle_number now s).
Proof.
  intros H. unfold _cycle_number. cbv zeta.
  case_match; [now apply cycle_attempts_given_ok|exact H].
Qed.

Lemma handle_play_given_ok inp s : given_ok s -> given_ok (_handle_play inp s).
Proof.
  intros H. unfold _handle_play. cbv zeta.
  set (s1 := set_time _ s).
  assert (H1 : given_ok s1) by (apply (given_ok_puzzle _ _ H); reflexivity).
  repeat (case_match; [try (apply (given_ok_puzzle _ _ H1); reflexivity)|]);
    try (now apply cycle_number_given_ok); exact H1.
Qed.

Lemma update_given_ok urandom fuel inp s s' :
  given_ok s -> update urandom fuel inp s = Some s' -> given_ok s'.
Proof.
  intros H Hu. unfold update in Hu. destruct (screen s).
  - unfold _handle_title, _to_game in Hu.
    repeat case_match; try (injection Hu as <-; apply (given_ok_puzzle _ _ H); reflexivity);
      eapply new_game_given_ok; eauto.
  - injection Hu as <-. apply (given_ok_puzzle _ (_handle_play inp s)).
    + now apply handle_play_given_ok.
    + apply puzzle_draw_toast.
  - injection Hu as <-. unfold _handle_pause, _to_title.
    repeat case_match; apply (given_ok_puzzle _ _ H); reflexivity.
  - unfold _handle_gameover, _to_game, _to_title in Hu.
    repeat case_match; try (injection Hu as <-; apply (given_ok_puzzle _ _ H); reflexivity);
      eapply new_game_given_ok; eauto.
Qed.

(** C3.  In every state the module can reach (every frame of [update],
    plus [_hint] on the play screen), a given cell holds the solution's
    value: [given[r][c]] implies [board[r][c] == solution[r][c]]. *)
Theorem reachable_given_solution urandom loaded t0 s :
  reachable urandom loaded t0 s ->
  forall r c, given_at (given s) r c = true -> cell (board s) r c = cell (solution s) r c.
Proof.
  induction 1 as [|fuel inp s s' _ IH Hu|now s _ IH _].
  - intros r c Hg. unfold given_at in Hg. simpl in Hg. discriminate.
  - exact (update_given_ok urandom fuel inp s s' IH Hu).
  - exact (hint_given_ok now s IH).
Qed.

Lemma reachable_given_solution_witness :
  reachable None sample_scores 0 sample_game /\
  given_at (given sample_game) 0 0 = true /\
  cell (board sample_game) 0 0 = cell (solution sample_game) 0 0.
Proof.
  assert (Hr : reachable None sample_scores 0 sample_game).
  { apply (reach_frame None sample_scores 0 1 (press 1000 [BUTTON_B])
             (init_state sample_scores 0) sample_game).
    - apply reach_init.
    - vm_compute. reflexivity. }
  assert (Hg : given_at (given sample_game) 0 0 = true) by (vm_compute; reflexivity).
  split; [exact Hr|]. split; [exact Hg|].
  exact (reachable_given_solution None sample_scores 0 sample_game Hr 0 0 Hg).
Defined.

(** ** [_place_number] *)

Lemma to_gameover_board_mistakes s :
  board (_to_gameover s) = board s /\ mistakes (_to_gameover s) = mistakes s.
Proof. unfold _to_gameover. now destruct (_ <? _)%Z. Qed.

(** C5.  With the cursor on cell [(r, c)]: when the cell is given,
    [_place_number v] returns the state unchanged; otherwise the board
    afterwards is the board with [v] written at [(r, c)], and [mistakes]
    goes up by exactly one when [v <> 0] and [v] differs from the
    solution's value, and stays otherwise.  The count depends only on
    [v] and the solution, so entering the same wrong value again counts
    again. *)
Theorem place_number_spec now num s :
  let r := Z.to_nat (cursor_y s) in
  let c := Z.to_nat (cursor_x s) in
  if given_at (given s) r c then _place_number now num s = s
  else board (_place_number now num s) = set_cell (board s) r c num /\
       mistakes (_place_number now num s) =
         (if negb (num =? 0) && negb (num =? cell (solution s) r c)
          then S (mistakes s) else mistakes s).
Proof.
  cbv zeta. unfold _place_number. cbv zeta.
  destruct (given_at (given s) _ _); [reflexivity|].
  destruct (negb (num =? 0) && negb _);
    match goal with
    | |- context [_is_complete ?t] =>
      destruct (_is_complete t);
        [destruct (to_gameover_board_mistakes t) as [-> ->]|]; split; reflexivity
    end.
Qed.

(** ** Pause and the clock *)

Definition clock (s : state) : Z * Z := (time s, start_time s).

Lemma clock_to_gameover s : clock (_to_gameover s) = clock s.
Proof. unfold _to_gameover. now destruct (_ <? _)%Z. Qed.

Lemma clock_draw_toast now s : clock (_draw_toast now s) = clock s.
Proof. unfold _draw_toast. now repeat case_match. Qed.

Lemma clock_place_number now num s : clock (_place_number now num s) = clock s.
Proof.
  unfold _place_number. cbv zeta.
  repeat case_match; try reflexivity; rewrite clock_to_gameover; reflexivity.
Qed.

Lemma clock_cycle_number now s : clock (_cycle_number now s) = clock s.
Proof.
  unfold _cycle_number. cbv zeta. case_match; [|reflexivity].
  induction (seq 1 10) as [|a l IH]; simpl; [reflexivity|].
  case_match; [apply clock_place_number|exact IH].
Qed.

Lemma clock_handle_play inp s :
  clock (_handle_play inp s) = (((ticks inp - start_time s) / 1000)%Z, start_time s).
Proof.
  unfold _handle_play. cbv zeta.
  repeat (case_match; [try reflexivity|]); try reflexivity.
  rewrite clock_cycle_number. reflexivity.
Qed.

(** C6.  One frame of [update]:
    - on the play screen the frame sets [time] to
      [(ticks - start_time) // 1000] and keeps [start_time]; when the
      pause combination is down, the frame ends on the pause screen with
      board, solution, given, cursor, mistakes, difficulty and ledger
      unchanged;
    - on the pause screen the frame changes neither [time] nor
      [start_time] (also when A resumes play).
    So [start_time] is not moved on resume, and the first play frame
    after a pause counts the paused time too (see [pause_time_counted]). *)
Theorem pause_frame_spec urandom fuel inp s s' :
  update urandom fuel inp s = Some s' ->
  (screen s = Play ->
     time s' = ((ticks inp - start_time s) / 1000)%Z /\ start_time s' = start_time s /\
     (_pause_pressed inp = true ->
        screen s' = Pause /\ puzzle s' = puzzle s /\
        cursor_x s' = cursor_x s /\ cursor_y s' = cursor_y s /\
        mistakes s' = mistakes s /\ difficulty s' = difficulty s /\
        hiscores s' = hiscores s)) /\
  (screen s = Pause -> time s' = time s /\ start_time s' = start_time s).
Proof.
  intros Hu. unfold update in Hu. split; intros Hs; rewrite Hs in Hu.
  - injection Hu as <-.
    pose proof (clock_handle_play inp s) as Hc.
    rewrite <- (clock_draw_toast (ticks inp)) in Hc. unfold clock in Hc.
    injection Hc as -> ->. split; [reflexivity|]. split; [reflexivity|].
    intros Hp. unfold _handle_play. rewrite Hp. unfold _draw_toast.
    repeat case_match; repeat split.
  - injection Hu as <-. unfold _handle_pause, _to_title.
    repeat case_match; split; reflexivity.
Qed.

Lemma pause_frame_spec_witness :
  update None 1 (hold 5000 [BUTTON_B; BUTTON_C]) sample_game =
    Some (_draw_toast 5000 (_handle_play (hold 5000 [BUTTON_B; BUTTON_C]) sample_game)) /\
  screen (_draw_toast 5000 (_handle_play (hold 5000 [BUTTON_B; BUTTON_C]) sample_game)) = Pause /\
  time (_draw_toast 5000 (_handle_play (hold 5000 [BUTTON_B; BUTTON_C]) sample_game)) = 4%Z.
Proof.
  assert (Hu : update None 1 (hold 5000 [BUTTON_B; BUTTON_C]) sample_game =
    Some (_draw_toast 5000 (_handle_play (hold 5000 [BUTTON_B; BUTTON_C]) sample_game)))
    by (vm_compute; reflexivity).
  assert (Hs : screen sample_game = Play) by (vm_compute; reflexivity).
  assert (Hp : _pause_pressed (hold 5000 [BUTTON_B; BUTTON_C]) = true)
    by (vm_compute; reflexivity).
  destruct (pause_frame_spec None 1 _ _ _ Hu) as [Hplay _].
  destruct (Hplay Hs) as (Ht & _ & Hpause).
  split; [exact Hu|]. split; [exact (proj1 (Hpause Hp))|].
  rewrite Ht. vm_compute. reflexivity.
Defined.

(** A game started at tick 1000, paused at tick 5000, resumed at tick
    100000 and shown at tick 101000: the clock reads 100 seconds, not
    the 5 seconds spent on the play screen. *)
Lemma pause_time_counted :
  map (fun s => (screen s, time s))
    (run None 1 [hold 5000 [BUTTON_B; BUTTON_C]; press 100000 [BUTTON_A]; press 101000 []]
       sample_game)
  = [(Pause, 4%Z); (Play, 4%Z); (Play, 100%Z)].
Proof. vm_compute. reflexivity. Qed.

(** ** The ledger *)

(** The first game finished on difficulty [d] after [t] seconds, with
    the ledger [scores]. *)
Definition finished (d t : Z) (scores : list Z) : state :=
  set_hiscores scores (set_time t (set_difficulty d sample_game)).

(** C7.  Entering gameover with stored record [v] at the session's
    difficulty: the record becomes [time] if [time < v] and stays [v]
    otherwise; every other record is unchanged.  The unset sentinel is
    the number 999999 (line 76), so it is replaced only by a time below
    999999 (see [gameover_sentinel_finite]). *)
Theorem to_gameover_record s v :
  hiscores s !! Z.to_nat (difficulty s) = Some v ->
  screen (_to_gameover s) = Gameover /\
  hiscores (_to_gameover s) !! Z.to_nat (difficulty s) =
    Some (if (time s <? v)%Z then time s else v) /\
  (forall k, k <> Z.to_nat (difficulty s) ->
     hiscores (_to_gameover s) !! k = hiscores s !! k).
Proof.
  intros Hv. unfold _to_gameover. simpl. rewrite Hv. simpl.
  pose proof (lookup_lt_Some _ _ _ Hv) as Hlt.
  destruct (time s <? v)%Z; simpl; split; try reflexivity; split.
  - now apply list_lookup_insert_eq.
  - intros k Hk. now apply list_lookup_insert_ne.
  - exact Hv.
  - reflexivity.
Qed.

(** From the default ledger, Medium finished in 120, then 150, then 90
    seconds: the records are 120, 120 and 90. *)
Lemma to_gameover_record_witness :
  hiscores (finished 1 120 sample_scores) !! Z.to_nat 1 = Some 999999%Z /\
  hiscores (_to_gameover (finished 1 120 sample_scores)) !! 1 = Some 120%Z /\
  hiscores (_to_gameover (finished 1 150 [999999; 120; 999999]%Z)) = [999999; 120; 999999]%Z /\
  hiscores (_to_gameover (finished 1 90 [999999; 120; 999999]%Z)) = [999999; 90; 999999]%Z.
Proof.
  assert (Hv : hiscores (finished 1 120 sample_scores) !! Z.to_nat 1 = Some 999999%Z)
    by reflexivity.
  destruct (to_gameover_record (finished 1 120 sample_scores) 999999 Hv) as (_ & H120 & _).
  split; [exact Hv|]. split; [exact H120|split; vm_compute; reflexivity].
Defined.

(** A Medium game finished after 1000000 seconds on the default ledger
    leaves the record at the sentinel 999999. *)
Lemma gameover_sentinel_finite :
  hiscores (_to_gameover (finished 1 1000000 sample_scores)) = sample_scores.
Proof. vm_compute. reflexivity. Qed.

(** ** [_randint] *)

Lemma getrandbits_fallback_bound st : (0 <= (_getrandbits None 30 st).1 < 2 ^ 24)%Z.
Proof.
  unfold _getrandbits. simpl.
  change (Z.shiftl 1 (Z.min 30 24) - 1)%Z with (Z.ones 24).
  rewrite Z.land_ones by lia. apply Z.mod_pos_bound. lia.
Qed.

(** C9.  For [a <= b], [_randint a b] draws [r = _getrandbits 30] and
    returns [a + r mod (b - a + 1)], which lies in [[a, b]] on both
    paths; on the fallback path (no [urandom.getrandbits]) the sample
    has only 24 bits: [0 <= r < 2^24].  Both paths are total. *)
Theorem randint_spec urandom a b st :
  (a <= b)%Z ->
  let '(r, st') := _getrandbits urandom 30 st in
  _randint urandom a b st = ((a + r mod (b - a + 1))%Z, st') /\
  (a <= (_randint urandom a b st).1 <= b)%Z /\
  (urandom = None -> (0 <= r < 2 ^ 24)%Z).
Proof.
  intros Hab. pose proof (randint_bounds urandom a b st Hab) as Hb.
  pose proof getrandbits_fallback_bound st as Hf.
  unfold _randint, rbind, rret in *.
  destruct (_getrandbits urandom 30 st) as [r st'] eqn:E.
  split; [reflexivity|]. split; [exact Hb|].
  intros ->. rewrite E in Hf. exact Hf.
Qed.

Lemma randint_spec_witness :
  (0 <= 80)%Z /\ (0 <= (_randint None 0 80 sample_st).1 <= 80)%Z.
Proof.
  split; [lia|].
  pose proof (randint_spec None 0 80 sample_st ltac:(lia)) as H.
  destruct (_getrandbits None 30 sample_st) as [r st'].
  exact (proj1 (proj2 H)).
Defined.

(** The fallback never yields a sample of 24 bits or more. *)
Lemma randint_fallback_narrow : ~ exists st, (2 ^ 24 <= (_getrandbits None 30 st).1)%Z.
Proof.
  intros [st H]. pose proof (getrandbits_fallback_bound st). lia.
Qed.

(** * Further properties of the module *)

(** ** [_validate_board] accepts exactly the consistent grids *)

Lemma validate_cells_true cells : forall b,
  wf_grid b = true -> (forall p, In p cells -> p.1 < 9 /\ p.2 < 9) ->
  (forall r c, In (r, c) cells -> cell b r c <> 0 -> _is_valid b r c (cell b r c) = true) ->
  validate_cells cells b = (true, b).
Proof.
  induction cells as [|[r c] cells IH]; intros b Hwf Hin Hv; simpl; [reflexivity|].
  destruct (Hin (r, c) (or_introl eq_refl)) as [Hr Hc]. simpl in Hr, Hc.
  pose proof (wf_in_grid b r c Hwf Hr Hc) as Hg.
  assert (Hback : set_cell (set_cell b r c 0) r c (cell b r c) = b)
    by (rewrite set_set; now apply set_id).
  assert (Hin' : forall p, In p cells -> p.1 < 9 /\ p.2 < 9) by (intros; apply Hin; right; auto).
  destruct (cell b r c =? 0) eqn:Ez; cbn [negb].
  - apply IH; auto. intros r0 c0 Hi Hn. apply Hv; [right; exact Hi|exact Hn].
  - rewrite is_valid_set_same by auto.
    rewrite (Hv r c (or_introl eq_refl)) by (apply Nat.eqb_neq; exact Ez). cbn [negb].
    rewrite Hback. apply IH; auto. intros r0 c0 Hi Hn. apply Hv; [right; exact Hi|exact Hn].
Qed.

Lemma consistent_is_valid b :
  consistent b <->
  (forall r c, r < 9 -> c < 9 -> cell b r c <> 0 -> _is_valid b r c (cell b r c) = true).
Proof.
  split.
  - intros Hc r c Hr Hc' Hnz. apply is_valid_spec; auto.
  - intros Hv r c r' c' Hr Hc Hr' Hc' Hne Hu Hnz.
    exact (proj1 (is_valid_spec b r c _ Hr Hc) (Hv r c Hr Hc Hnz) r' c' Hr' Hc' Hne Hu).
Qed.

(** X1.  [_validate_board] hands the grid back unchanged, and it answers
    [True] exactly when no filled cell shares a row, a column or a box
    with another cell holding the same value. *)
Theorem validate_board_spec b :
  wf_grid b = true ->
  (_validate_board b).2 = b /\ ((_validate_board b).1 = true <-> consistent b).
Proof.
  intros Hwf. unfold _validate_board.
  assert (Hcells : forall p, In p all_cells -> p.1 < 9 /\ p.2 < 9)
    by (intros [r c] Hp; apply in_all_cells in Hp; exact Hp).
  destruct (validate_cells all_cells b) as [ok b'] eqn:E.
  destruct (validate_cells_ok all_cells b ok b' Hwf Hcells E) as [-> Hok].
  split; [reflexivity|]. simpl. split.
  - intros ->. apply consistent_is_valid. intros r c Hr Hc Hnz.
    apply Hok; auto. apply in_all_cells. auto.
  - intros Hc. rewrite validate_cells_true in E; [congruence|auto|auto|].
    intros r c Hin Hnz. apply in_all_cells in Hin as [Hr Hc'].
    exact (proj1 (consistent_is_valid b) Hc r c Hr Hc' Hnz).
Qed.

Lemma validate_board_spec_witness :
  wf_grid (solution sample_game) = true /\
  (_validate_board (solution sample_game)).2 = solution sample_game /\
  ((_validate_board (solution sample_game)).1 = true <-> consistent (solution sample_game)).
Proof.
  assert (Hw : wf_grid (solution sample_game) = true) by (vm_compute; reflexivity).
  split; [exact Hw|]. exact (validate_board_spec _ Hw).
Defined.

(** ** The generator's seeding *)

Lemma shuffle_perm urandom is : forall nums st,
  Forall (fun i => i < length nums) is ->
  Permutation (shuffle urandom is nums st).1 nums.
Proof.
  induction is as [|i is IH]; intros nums st H; simpl; [reflexivity|].
  inversion H as [|? ? Hi Htl]; subst.
  unfold rbind. pose proof (randint_bounds urandom 0 (Z.of_nat i) st ltac:(lia)) as Hb.
  destruct (_randint urandom 0 (Z.of_nat i) st) as [j st']. simpl in Hb. cbv zeta.
  destruct (lookup_lt_is_Some_2 nums i Hi) as [ni Ei].
  destruct (lookup_lt_is_Some_2 nums (Z.to_nat j) ltac:(lia)) as [nj Ej].
  rewrite Ei, Ej. simpl.
  rewrite IH.
  - exact (Permutation_insert_swap nums i (Z.to_nat j) ni nj Ei Ej).
  - rewrite !length_insert. exact Htl.
Qed.

Lemma shuffle_19_perm urandom st :
  Permutation (shuffle urandom (rev (seq 1 8)) (seq 1 9) st).1 (seq 1 9).
Proof. apply shuffle_perm. repeat constructor; simpl; lia. Qed.

Lemma box_offsets_elem i j :
  (i, j) ∈ flat_map (fun i => map (fun j => (i, j)) (seq 0 3)) (seq 0 3) <-> i < 3 /\ j < 3.
Proof.
  rewrite list_elem_of_In, in_flat_map. split.
  - intros (i0 & Hi0 & Hin). apply in_map_iff in Hin as (j0 & [= <- <-] & Hj0).
    apply in_seq in Hi0, Hj0. lia.
  - intros [Hi Hj]. exists i. split; [apply in_seq; lia|].
    apply in_map_iff. exists j. split; [reflexivity|apply in_seq; lia].
Qed.

Lemma fold_set_cells_cell box (g : nat -> nat -> nat) offs : forall b r c,
  wf_grid b = true -> (forall i j, (i, j) ∈ offs -> box + i < 9 /\ box + j < 9) ->
  cell (fold_left (fun b '(i, j) => set_cell b (box + i) (box + j) (g i j)) offs b) r c =
  if decide (box <= r /\ box <= c /\ (r - box, c - box) ∈ offs)
  then g (r - box) (c - box) else cell b r c.
Proof.
  induction offs as [|[i j] offs IH]; intros b r c Hwf Hoffs; simpl.
  - case_decide as H; [destruct H as (_ & _ & H); inversion H|reflexivity].
  - destruct (Hoffs i j ltac:(left)) as [Hi Hj].
    rewrite IH; [|now rewrite wf_grid_set|intros i' j' Hij; apply Hoffs; now right].
    rewrite (cell_set b (box + i) (box + j) r c _ (wf_in_grid b _ _ Hwf Hi Hj)).
    destruct (decide (box <= r /\ box <= c /\ (r - box, c - box) ∈ offs)) as [Ht|Ht];
    destruct (decide ((box + i, box + j) = (r, c))) as [Ee|Ee];
    destruct (decide (box <= r /\ box <= c /\ (r - box, c - box) ∈ (i, j) :: offs))
      as [Hf|Hf]; try reflexivity; rewrite ?elem_of_cons in *.
    + exfalso. apply Hf. destruct Ht as (? & ? & ?). auto.
    + exfalso. apply Hf. destruct Ht as (? & ? & ?). auto.
    + injection Ee as <- <-. f_equal; lia.
    + exfalso. injection Ee as <- <-. apply Hf. split; [lia|]. split; [lia|].
      left. f_equal; lia.
    + exfalso. destruct Hf as (H1 & H2 & [E|E]).
      * injection E as E1 E2. apply Ee. f_equal; lia.
      * apply Ht. auto.
Qed.

Lemma fill_box_wf box nums b : wf_grid (fill_box box nums b) = wf_grid b.
Proof.
  unfold fill_box.
  generalize (flat_map (fun i => map (fun j => (i, j)) (seq 0 3)) (seq 0 3)).
  intros offs. revert b. induction offs as [|[i j] offs IH]; intros b; simpl; [reflexivity|].
  rewrite IH. apply wf_grid_set.
Qed.

Lemma fill_box_cell box nums b r c :
  wf_grid b = true -> box <= 6 ->
  cell (fill_box box nums b) r c =
  if decide (box <= r < box + 3 /\ box <= c < box + 3)
  then default 0 (nums !! (3 * (r - box) + (c - box))) else cell b r c.
Proof.
  intros Hwf Hbox. unfold fill_box.
  etransitivity.
  { exact (fold_set_cells_cell box (fun i j => default 0 (nums !! (3 * i + j))) _ b r c Hwf
      (fun i j Hij => let H := proj1 (box_offsets_elem i j) Hij in conj
         (ltac:(lia) : box + i < 9) (ltac:(lia) : box + j < 9))). }
  cbv beta.
  destruct (decide (box <= r /\ box <= c /\ (r - box, c - box) ∈ _)) as [H1|H1];
    destruct (decide (box <= r < box + 3 /\ box <= c < box + 3)) as [H2|H2];
    try reflexivity; exfalso.
  - destruct H1 as (? & ? & H). apply box_offsets_elem in H. lia.
  - apply H1. split; [lia|]. split; [lia|]. apply box_offsets_elem. lia.
Qed.

(** The board after seeding: box [k] of the diagonal holds the list
    [nk] read row by row, every other cell is 0. *)
Definition seeded (n0 n1 n2 : list nat) (r c : nat) : nat :=
  if decide (r / 3 = c / 3)
  then default 0 (nth (r / 3) [n0; n1; n2] [] !! (3 * (r mod 3) + c mod 3)) else 0.

Lemma seed_boxes_cells urandom st :
  exists n0 n1 n2,
    Permutation n0 (seq 1 9) /\ Permutation n1 (seq 1 9) /\ Permutation n2 (seq 1 9) /\
    forall r c, r < 9 -> c < 9 ->
      cell (seed_boxes urandom [0; 3; 6] zero_grid st).1 r c = seeded n0 n1 n2 r c.
Proof.
  cbn [seed_boxes]. unfold rbind, rret.
  pose proof (shuffle_19_perm urandom st) as P0.
  destruct (shuffle urandom (rev (seq 1 8)) (seq 1 9) st) as [n0 st0] eqn:E0.
  pose proof (shuffle_19_perm urandom st0) as P1.
  destruct (shuffle urandom (rev (seq 1 8)) (seq 1 9) st0) as [n1 st1] eqn:E1.
  pose proof (shuffle_19_perm urandom st1) as P2.
  destruct (shuffle urandom (rev (seq 1 8)) (seq 1 9) st1) as [n2 st2] eqn:E2.
  exists n0, n1, n2. split; [exact P0|]. split; [exact P1|]. split; [exact P2|].
  intros r c Hr Hc. simpl.
  assert (Hz : wf_grid zero_grid = true) by reflexivity.
  rewrite !fill_box_cell by (rewrite ?fill_box_wf; auto with arith).
  unfold seeded.
  do 9 (destruct r as [|r]; [do 9 (destruct c as [|c]; [reflexivity|]); lia|]). lia.
Qed.

Lemma perm19_nodup n : Permutation n (seq 1 9) -> NoDup n /\ length n = 9.
Proof.
  intros P. split.
  - rewrite P. apply NoDup_seq.
  - rewrite (Permutation_length P). reflexivity.
Qed.

Lemma seeded_consistent n0 n1 n2 b :
  Permutation n0 (seq 1 9) -> Permutation n1 (seq 1 9) -> Permutation n2 (seq 1 9) ->
  (forall r c, r < 9 -> c < 9 -> cell b r c = seeded n0 n1 n2 r c) ->
  consistent b.
Proof.
  intros P0 P1 P2 Hb r c r' c' Hr Hc Hr' Hc' Hne Hu Hnz.
  rewrite !Hb in * by auto. unfold seeded in *.
  destruct (decide (r / 3 = c / 3)) as [Hk|Hk]; [|contradiction].
  destruct (decide (r' / 3 = c' / 3)) as [Hk'|Hk']; [|auto].
  assert (Hrr : r' / 3 = r / 3) by (destruct Hu as [->|[->|[E1 E2]]]; lia).
  rewrite Hrr.
  pose proof (Nat.div_mod_eq r 3). pose proof (Nat.mod_upper_bound r 3 ltac:(lia)).
  pose proof (Nat.div_mod_eq c 3). pose proof (Nat.mod_upper_bound c 3 ltac:(lia)).
  pose proof (Nat.div_mod_eq r' 3). pose proof (Nat.mod_upper_bound r' 3 ltac:(lia)).
  pose proof (Nat.div_mod_eq c' 3). pose proof (Nat.mod_upper_bound c' 3 ltac:(lia)).
  assert (Hn : NoDup (nth (r / 3) [n0; n1; n2] []) /\ length (nth (r / 3) [n0; n1; n2] []) = 9).
  { assert (r / 3 = 0 \/ r / 3 = 1 \/ r / 3 = 2) as [E|[E|E]] by lia; rewrite E;
      apply perm19_nodup; assumption. }
  destruct Hn as [Hnd Hlen].
  set (n := nth (r / 3) [n0; n1; n2] []) in *.
  assert (Hi : 3 * (r mod 3) + c mod 3 < length n) by lia.
  assert (Hi' : 3 * (r' mod 3) + c' mod 3 < length n) by lia.
  destruct (lookup_lt_is_Some_2 n _ Hi) as [x Ex].
  destruct (lookup_lt_is_Some_2 n _ Hi') as [x' Ex'].
  rewrite Ex, Ex'. simpl. intros ->.
  pose proof (NoDup_lookup n _ _ x Hnd Ex Ex') as Hij.
  apply Hne. f_equal; lia.
Qed.

Lemma le9_cells_le9 b : le9 b -> cells_le9 b = true.
Proof.
  intros H. unfold cells_le9. apply forallb_forall. intros [r c] Hin.
  apply in_all_cells in Hin as [Hr Hc]. apply Nat.leb_le. auto.
Qed.

Lemma valid_consistent g : valid_solution g -> consistent g.
Proof.
  intros (_ & _ & Hdist) r c r' c' Hr Hc Hr' Hc' Hne Hu _. auto.
Qed.

Lemma generate_valid_core urandom fuel : forall st S st',
  _generate_full_board urandom fuel st = (Some S, st') ->
  valid_solution S /\ _validate_board S = (true, S).
Proof.
  induction fuel as [|fuel IH]; intros st S st' Hg; cbn [_generate_full_board] in Hg;
    unfold rret, rbind in Hg; [discriminate|].
  destruct (seed_boxes_cells urandom st) as (n0 & n1 & n2 & P0 & P1 & P2 & Hcells).
  destruct zero_grid_ok as [Hz1 Hz2].
  destruct (seed_boxes_ok urandom [0; 3; 6] zero_grid st Hz1 Hz2) as [Hwf0 Hle0].
  pose proof (seeded_consistent n0 n1 n2 _ P0 P1 P2 Hcells) as Hcons.
  destruct (seed_boxes urandom [0; 3; 6] zero_grid st) as [b0 st0] eqn:Es.
  simpl in Hwf0, Hle0, Hcons.
  destruct (_solve_sudoku b0) as [[|] b1] eqn:Ev; cbn [negb] in Hg; [|eapply IH; eauto].
  inversion Hg; subst b1.
  pose proof (solve_true 82 b0 S Hwf0 (zeros_lt_82 b0) Ev) as Hf.
  pose proof (fills_valid b0 S (le9_cells_le9 b0 Hle0) Hcons Hf) as Hv.
  split; [exact Hv|]. apply validate_cells_true.
  - exact (proj1 Hv).
  - intros [r c] Hp. apply in_all_cells in Hp. exact Hp.
  - intros r c Hin Hnz. apply in_all_cells in Hin as [Hr Hc].
    exact (proj1 (consistent_is_valid S) (valid_consistent S Hv) r c Hr Hc Hnz).
Qed.

(** X2.  Every board [_generate_full_board] returns is a valid full Sudoku
    (each of 1..9 once per row, column and box), and [_validate_board]
    accepts it and leaves it as it is: the seeding of the three diagonal
    boxes never breaks a constraint. *)
Theorem generate_full_board_valid urandom fuel st S st' :
  _generate_full_board urandom fuel st = (Some S, st') ->
  valid_solution S /\ _validate_board S = (true, S).
Proof. apply generate_valid_core. Qed.

Lemma generate_full_board_valid_witness :
  _generate_full_board None 1 (rng sample_start) =
    (Some (solution sample_game), (_generate_full_board None 1 (rng sample_start)).2) /\
  _validate_board (solution sample_game) = (true, solution sample_game).
Proof.
  assert (Hg : _generate_full_board None 1 (rng sample_start) =
    (Some (solution sample_game), (_generate_full_board None 1 (rng sample_start)).2))
    by (vm_compute; reflexivity).
  split; [exact Hg|]. exact (proj2 (generate_full_board_valid None 1 _ _ _ Hg)).
Defined.

(** X4.  [_new_game] keeps the first board the generator returns: the
    retry after a failed [_validate_board] (line 171) is never taken. *)
Theorem new_game_first_board urandom fuel now s :
  match _generate_full_board urandom fuel (rng s) with
  | (Some S0, _) => exists s', _new_game urandom fuel now s = Some s' /\ solution s' = S0
  | (None, _) => _new_game urandom fuel now s = None
  end.
Proof.
  destruct fuel as [|fuel]; [reflexivity|].
  cbn [_new_game].
  destruct (_generate_full_board urandom (S fuel) (rng s)) as [[S0|] st] eqn:Eg; [|reflexivity].
  rewrite (proj2 (generate_valid_core urandom (S fuel) (rng s) S0 st Eg)). cbn [negb].
  destruct (carve_puzzle urandom S0 (difficulty s) st) as [[b g] st'].
  eexists. split; reflexivity.
Qed.

(** ** What a new game sets up *)

(** [given] is 9 rows of 9 flags. *)
Definition given_wf (g : list (list bool)) : bool :=
  (length g =? 9) && forallb (fun row => length row =? 9) g.

(** A game on screen: a valid solution, a 9x9 board with values in
    0..9 and a 9x9 mask. *)
Definition game_ok (s : state) : Prop :=
  valid_solution (solution s) /\ wf_grid (board s) = true /\ le9 (board s) /\
  given_wf (given s) = true.

Lemma remove_count_le d : remove_count d <= 60.
Proof. unfold remove_count. destruct (Z.to_nat d) as [|[|[|n]]]; simpl; lia. Qed.

Lemma remove_loop_wf urandom k : forall cells b st,
  wf_grid b = true -> wf_grid (remove_loop urandom k cells b st).1 = true.
Proof.
  induction k as [|k IH]; intros cells b st Hwf; cbn [remove_loop]; [exact Hwf|].
  destruct cells as [|p cells0]; [exact Hwf|].
  unfold rbind. destruct (_randint urandom _ _ st) as [idx st']. cbv beta zeta.
  destruct ((p :: cells0) !! Z.to_nat idx) as [[r0 c0]|]; [|exact Hwf].
  apply IH. now rewrite wf_grid_set.
Qed.

Lemma new_game_fields urandom fuel : forall now s s',
  _new_game urandom fuel now s = Some s' ->
  screen s' = screen s /\ difficulty s' = difficulty s /\
  cursor_x s' = 0%Z /\ cursor_y s' = 0%Z /\ mistakes s' = 0 /\ time s' = 0%Z /\
  start_time s' = now /\ hiscores s' = hiscores s /\ game_ok s' /\
  ((0 <= difficulty s < 3)%Z -> [40; 50; 60] !! Z.to_nat (difficulty s) = Some (zeros (board s'))).
Proof.
  induction fuel as [|fuel IH]; intros now s s' Hn; cbn [_new_game] in Hn; [discriminate|].
  destruct (_generate_full_board urandom (S fuel) (rng s)) as [[S0|] st] eqn:Eg;
    [|discriminate].
  destruct (generate_ok urandom (S fuel) (rng s) S0 st Eg) as (Hwf & Hle & Hfull).
  assert (Hcells : forall p, In p all_cells -> p.1 < 9 /\ p.2 < 9)
    by (intros [r c] Hp; apply in_all_cells in Hp; exact Hp).
  destruct (_validate_board S0) as [ok S1] eqn:Ev.
  destruct (validate_cells_ok all_cells S0 ok S1 Hwf Hcells Ev) as [-> _].
  destruct ok; cbn [negb] in Hn; [|apply IH in Hn; exact Hn].
  destruct (validated_full_valid S0 Hwf Hle Hfull) as [Hvalid _]; [now rewrite Ev|].
  unfold carve_puzzle, rbind, rret, _remove_numbers in Hn.
  destruct (remove_loop_spec urandom (remove_count (difficulty s)) all_cells S0 st)
    as (Hwf' & Hz & Hkeep); auto.
  { apply all_cells_NoDup. }
  { intros [r c] Hp. apply list_elem_of_In, in_all_cells in Hp as [Hr Hc].
    simpl. split; [auto|]. split; [auto|].
    exact (proj1 (find_empty_none S0) Hfull r c Hr Hc). }
  { pose proof (remove_count_le (difficulty s)). change (length all_cells) with 81. lia. }
  destruct (remove_loop urandom (remove_count (difficulty s)) all_cells S0 st) as [P st'].
  injection Hn as <-.
  cbn [fst] in Hwf', Hz, Hkeep. unfold game_ok. simpl.
  do 8 (split; [reflexivity|]). split.
  - split; [exact Hvalid|]. split; [exact Hwf'|]. split; [|reflexivity].
    intros r c Hr Hc. destruct (Hkeep r c Hr Hc) as [->| ->]; [lia|auto].
  - intros Hd. rewrite (remove_count_values _ Hd). f_equal.
    rewrite Hz, (zeros_full S0 Hfull). reflexivity.
Qed.

(** X5.  Starting a game (B on the title screen, A on the game-over screen)
    puts the play screen up with the cursor at the top left corner, no
    mistakes, a clock reading 0 started at the current tick, the
    difficulty and the ledger as they were, a valid solution, and
    exactly 40, 50 or 60 empty cells for Easy, Medium or Hard. *)
Theorem to_game_reset urandom fuel now s s' :
  _to_game urandom fuel now s = Some s' ->
  screen s' = Play /\ difficulty s' = difficulty s /\
  cursor_x s' = 0%Z /\ cursor_y s' = 0%Z /\ mistakes s' = 0 /\ time s' = 0%Z /\
  start_time s' = now /\ hiscores s' = hiscores s /\ valid_solution (solution s') /\
  ((0 <= difficulty s < 3)%Z -> [40; 50; 60] !! Z.to_nat (difficulty s) = Some (zeros (board s'))).
Proof.
  unfold _to_game. intros Hn.
  destruct (new_game_fields urandom fuel now _ s' Hn)
    as (Hs & Hd & Hx & Hy & Hm & Ht & Hst & Hh & (Hv & _) & Hz).
  simpl in *. auto 10.
Qed.

Lemma to_game_reset_witness :
  _to_game None 1 1000 (init_state sample_scores 0) = Some sample_game /\
  mistakes sample_game = 0 /\ start_time sample_game = 1000%Z.
Proof.
  assert (Hn : _to_game None 1 1000 (init_state sample_scores 0) = Some sample_game)
    by (vm_compute; reflexivity).
  destruct (to_game_reset None 1 1000 _ _ Hn) as (_ & _ & _ & _ & Hm & _ & Hst & _).
  split; [exact Hn|]. split; [exact Hm|exact Hst].
Defined.

(** ** One frame on the play screen *)

(** [l'] has the records of [l], none of them worse. *)
Definition scores_le (l' l : list Z) : Prop :=
  length l' = length l /\
  forall k v, l !! k = Some v -> exists v', l' !! k = Some v' /\ (v' <= v)%Z.

Lemma scores_le_refl l : scores_le l l.
Proof. split; [reflexivity|]. intros k v Hk. exists v. split; [exact Hk|lia]. Qed.

Lemma scores_le_trans a b c : scores_le a b -> scores_le b c -> scores_le a c.
Proof.
  intros [Hab Hab'] [Hbc Hbc']. split; [congruence|].
  intros k v Hk. destruct (Hbc' k v Hk) as (v1 & E1 & L1).
  destruct (Hab' k v1 E1) as (v2 & E2 & L2). exists v2. split; [exact E2|lia].
Qed.

Lemma to_gameover_fields t :
  screen (_to_gameover t) = Gameover /\ board (_to_gameover t) = board t /\
  solution (_to_gameover t) = solution t /\ given (_to_gameover t) = given t /\
  cursor_x (_to_gameover t) = cursor_x t /\ cursor_y (_to_gameover t) = cursor_y t /\
  difficulty (_to_gameover t) = difficulty t /\ mistakes (_to_gameover t) = mistakes t /\
  _is_complete (_to_gameover t) = _is_complete t /\
  scores_le (hiscores (_to_gameover t)) (hiscores t).
Proof.
  unfold _to_gameover. simpl.
  destruct (time t <? default 0 (hiscores t !! Z.to_nat (difficulty t)))%Z eqn:E;
    split_and!; try reflexivity; try apply scores_le_refl.
  simpl. split; [apply length_insert|].
  intros k v Hk. destruct (decide (k = Z.to_nat (difficulty t))) as [->|Hne].
  - exists (time t). rewrite list_lookup_insert_eq by (apply lookup_lt_Some in Hk; lia).
    split; [reflexivity|]. rewrite Hk in E. simpl in E. apply Z.ltb_lt in E. lia.
  - exists v. rewrite list_lookup_insert_ne by congruence. split; [exact Hk|lia].
Qed.

(** What a frame on the play screen may change. *)
Definition play_frame (s t : state) : Prop :=
  solution t = solution s /\ given t = given s /\ difficulty t = difficulty s /\
  (board t = board s \/ exists r c v, v <= 9 /\ board t = set_cell (board s) r c v) /\
  scores_le (hiscores t) (hiscores s) /\ mistakes s <= mistakes t <= S (mistakes s) /\
  (screen t = Play \/ screen t = Pause \/ (screen t = Gameover /\ _is_complete t = true)) /\
  ((0 <= cursor_x s < 9)%Z -> (0 <= cursor_y s < 9)%Z ->
     (0 <= cursor_x t < 9)%Z /\ (0 <= cursor_y t < 9)%Z).

Lemma play_frame_refl s : screen s = Play -> play_frame s s.
Proof.
  intros Hs. unfold play_frame. split_and!; auto using scores_le_refl.
Qed.

Lemma play_frame_finish s t :
  play_frame s t -> play_frame s (if _is_complete t then _to_gameover t else t).
Proof.
  intros H. destruct (_is_complete t) eqn:Ec; [|exact H].
  destruct (to_gameover_fields t) as (Hs & Hb & Hso & Hg & Hx & Hy & Hd & Hm & Hc & Hh).
  destruct H as (H1 & H2 & H3 & H4 & H5 & H6 & H7 & H8).
  unfold play_frame. rewrite Hb, Hso, Hg, Hx, Hy, Hd, Hm, Hs, Hc, Ec.
  split_and!; auto; try lia. eapply scores_le_trans; eauto.
Qed.

Lemma place_number_frame now num s :
  screen s = Play -> num <= 9 -> play_frame s (_place_number now num s).
Proof.
  intros Hs Hn. unfold _place_number. cbv zeta.
  destruct (given_at _ _ _); [now apply play_frame_refl|].
  apply play_frame_finish.
  destruct (negb _ && negb _); unfold play_frame; simpl;
    split_and!; auto using scores_le_refl; right; eauto 6.
Qed.

Lemma wf_cell_out g r c : wf_grid g = true -> ~ (r < 9 /\ c < 9) -> cell g r c = 0.
Proof.
  unfold wf_grid, cell. intros Hwf Hout.
  apply andb_true_iff in Hwf as [Hlen Hrows]. apply Nat.eqb_eq in Hlen.
  destruct (g !! r) as [row|] eqn:E; [|reflexivity].
  assert (Hr : r < 9) by (apply lookup_lt_Some in E; lia).
  rewrite forallb_forall in Hrows.
  assert (Hin : In row g) by (apply list_elem_of_In, list_elem_of_lookup; eauto).
  specialize (Hrows row Hin). apply Nat.eqb_eq in Hrows.
  rewrite lookup_ge_None_2; [reflexivity|lia].
Qed.

Lemma valid_cell_le9 g r c : valid_solution g -> cell g r c <= 9.
Proof.
  intros (Hwf & Hrange & _).
  destruct (decide (r < 9 /\ c < 9)) as [[Hr Hc]|Hout].
  - pose proof (Hrange r c Hr Hc). lia.
  - rewrite wf_cell_out by auto. lia.
Qed.

Lemma hint_frame now s :
  screen s = Play -> valid_solution (solution s) -> play_frame s (_hint now s).
Proof.
  intros Hs Hv. unfold _hint. cbv zeta.
  destruct (given_at _ _ _); simpl; [now apply play_frame_refl|].
  apply play_frame_finish. unfold play_frame; simpl.
  split_and!; auto using scores_le_refl.
  right. do 3 eexists. split; [|reflexivity]. apply valid_cell_le9. exact Hv.
Qed.

Lemma cycle_number_frame now s : screen s = Play -> play_frame s (_cycle_number now s).
Proof.
  intros Hs. unfold _cycle_number. cbv zeta.
  case_match; [|now apply play_frame_refl].
  induction (seq 1 10) as [|a l IH]; simpl; [now apply play_frame_refl|].
  case_match; [|exact IH].
  apply place_number_frame; [exact Hs|].
  pose proof (Nat.mod_upper_bound (cell (board s) (Z.to_nat (cursor_y s))
    (Z.to_nat (cursor_x s)) + a) 10 ltac:(lia)). lia.
Qed.

Lemma handle_play_frame inp s : screen s = Play -> play_frame s (_handle_play inp s).
Proof.
  intros Hs. unfold _handle_play. cbv zeta.
  set (s1 := set_time _ s).
  assert (Hs1 : screen s1 = Play) by exact Hs.
  assert (Hmove : forall dx dy, play_frame s (_move_cursor dx dy s1)).
  { intros dx dy. unfold play_frame, _move_cursor. simpl.
    split_and!; auto using scores_le_refl; intros _ _;
      split; apply Z.mod_pos_bound; lia. }
  destruct (_pause_pressed inp).
  { unfold play_frame. simpl. split_and!; auto using scores_le_refl. }
  repeat (case_match; [apply Hmove|]).
  case_match; [exact (cycle_number_frame _ s1 Hs1)|exact (play_frame_refl s1 Hs1)].
Qed.

Lemma play_frame_draw_toast now s t : play_frame s t -> play_frame s (_draw_toast now t).
Proof. unfold _draw_toast. intros H. repeat case_match; exact H. Qed.

Lemma update_play_frame urandom fuel inp s s' :
  screen s = Play -> update urandom fuel inp s = Some s' -> play_frame s s'.
Proof.
  intros Hs Hu. unfold update in Hu. rewrite Hs in Hu. injection Hu as <-.
  apply play_frame_draw_toast, handle_play_frame, Hs.
Qed.

(** X12.  A frame on the play screen keeps the solution, the given mask and
    the difficulty; it changes at most one cell of the board, to a value
    in 0..9; it adds at most one mistake; and it makes no record of the
    ledger worse. *)
Theorem play_frame_spec urandom fuel inp s s' :
  screen s = Play -> update urandom fuel inp s = Some s' ->
  solution s' = solution s /\ given s' = given s /\ difficulty s' = difficulty s /\
  (board s' = board s \/ exists r c v, v <= 9 /\ board s' = set_cell (board s) r c v) /\
  scores_le (hiscores s') (hiscores s) /\ mistakes s <= mistakes s' <= S (mistakes s).
Proof.
  intros Hs Hu.
  destruct (update_play_frame urandom fuel inp s s' Hs Hu) as (H1 & H2 & H3 & H4 & H5 & H6 & _).
  tauto.
Qed.

Lemma play_frame_spec_witness :
  screen sample_game = Play /\
  update None 1 (press 2000 [BUTTON_B]) sample_game =
    Some (_draw_toast 2000 (_handle_play (press 2000 [BUTTON_B]) sample_game)) /\
  mistakes sample_game <=
    mistakes (_draw_toast 2000 (_handle_play (press 2000 [BUTTON_B]) sample_game)) <=
    S (mistakes sample_game).
Proof.
  assert (Hs : screen sample_game = Play) by (vm_compute; reflexivity).
  assert (Hu : update None 1 (press 2000 [BUTTON_B]) sample_game =
    Some (_draw_toast 2000 (_handle_play (press 2000 [BUTTON_B]) sample_game)))
    by (vm_compute; reflexivity).
  split; [exact Hs|]. split; [exact Hu|].
  exact (proj2 (proj2 (proj2 (proj2 (proj2 (play_frame_spec None 1 _ _ _ Hs Hu)))))).
Defined.

(** ** Completion and the reachable-state invariant *)

Lemma wf_row_length g r row : wf_grid g = true -> g !! r = Some row -> length row = 9.
Proof.
  unfold wf_grid. intros Hwf E.
  apply andb_true_iff in Hwf as [_ Hrows]. rewrite forallb_forall in Hrows.
  apply Nat.eqb_eq, Hrows, list_elem_of_In, list_elem_of_lookup. eauto.
Qed.

Lemma grid_ext g1 g2 : wf_grid g1 = true -> wf_grid g2 = true ->
  (forall r c, r < 9 -> c < 9 -> cell g1 r c = cell g2 r c) -> g1 = g2.
Proof.
  intros H1 H2 Hc.
  assert (L1 : length g1 = 9) by (apply andb_true_iff in H1 as [L _]; apply Nat.eqb_eq, L).
  assert (L2 : length g2 = 9) by (apply andb_true_iff in H2 as [L _]; apply Nat.eqb_eq, L).
  apply list_eq. intros r.
  destruct (decide (r < 9)) as [Hr|Hr]; [|rewrite !lookup_ge_None_2 by lia; reflexivity].
  destruct (lookup_lt_is_Some_2 g1 r ltac:(lia)) as [row1 E1].
  destruct (lookup_lt_is_Some_2 g2 r ltac:(lia)) as [row2 E2].
  rewrite E1, E2. f_equal.
  pose proof (wf_row_length g1 r row1 H1 E1) as Hl1.
  pose proof (wf_row_length g2 r row2 H2 E2) as Hl2.
  apply list_eq. intros c.
  destruct (decide (c < 9)) as [Hc'|Hc']; [|rewrite !lookup_ge_None_2 by lia; reflexivity].
  specialize (Hc r c Hr Hc'). unfold cell in Hc. rewrite E1, E2 in Hc.
  destruct (lookup_lt_is_Some_2 row1 c ltac:(lia)) as [v1 F1].
  destruct (lookup_lt_is_Some_2 row2 c ltac:(lia)) as [v2 F2].
  rewrite F1, F2 in *. congruence.
Qed.

Lemma is_complete_eq s : wf_grid (board s) = true -> wf_grid (solution s) = true ->
  _is_complete s = true <-> board s = solution s.
Proof.
  intros H1 H2. unfold _is_complete. rewrite forallb_forall. split.
  - intros H. apply grid_ext; auto. intros r c Hr Hc.
    apply Nat.eqb_eq, (H (r, c)), in_all_cells. auto.
  - intros -> [r c] _. apply Nat.eqb_refl.
Qed.

(** What holds of every state the module reaches. *)
Definition game_inv (loaded : list Z) (s : state) : Prop :=
  (0 <= cursor_x s < 9)%Z /\ (0 <= cursor_y s < 9)%Z /\ (0 <= difficulty s < 3)%Z /\
  (screen s <> Title -> game_ok s) /\
  (screen s = Gameover -> _is_complete s = true) /\
  scores_le (hiscores s) loaded.

Lemma inv_play_frame loaded s t :
  game_inv loaded s -> screen s = Play -> play_frame s t -> game_inv loaded t.
Proof.
  intros (Hx & Hy & Hd & Hg & _ & Hsc) Hs (Hsol & Hgv & Hdf & Hb & Hsc' & _ & Hscr & Hcur).
  destruct (Hg ltac:(congruence)) as (Hv & Hwf & Hle & Hgw).
  destruct (Hcur Hx Hy) as [Hx' Hy'].
  unfold game_inv. rewrite Hdf. split_and!; auto; try lia.
  - intros _. unfold game_ok. rewrite Hsol, Hgv.
    destruct Hb as [-> | (r & c & v & Hv9 & ->)]; [auto|].
    split_and!; auto; [now rewrite wf_grid_set | now apply le9_set].
  - intros Hgo. destruct Hscr as [H | [H | [_ H]]]; [congruence | congruence | exact H].
  - eapply scores_le_trans; eauto.
Qed.

Ltac inv_close :=
  split_and!; auto; try lia;
  try (intros ?H; solve [discriminate H | exfalso; congruence]).

Lemma to_game_inv urandom fuel now loaded s s' :
  _to_game urandom fuel now s = Some s' -> (0 <= difficulty s < 3)%Z ->
  scores_le (hiscores s) loaded -> game_inv loaded s'.
Proof.
  unfold _to_game. intros Hn Hd Hsc.
  destruct (new_game_fields urandom fuel now _ s' Hn)
    as (Hs & Hdf & Hx & Hy & _ & _ & _ & Hh & Hok & _).
  simpl in Hs, Hdf, Hh. unfold game_inv.
  rewrite Hx, Hy, Hdf, Hh, Hs. inv_close.
Qed.

Lemma update_inv urandom fuel inp loaded s s' :
  game_inv loaded s -> update urandom fuel inp s = Some s' -> game_inv loaded s'.
Proof.
  intros Hi Hu.
  destruct (screen s) eqn:Hs.
  - unfold update in Hu. rewrite Hs in Hu. unfold _handle_title in Hu.
    destruct Hi as (Hx & Hy & Hd & Hg & Hgo & Hsc).
    destruct (_pressed inp BUTTON_UP).
    { injection Hu as <-. pose proof (Z.mod_pos_bound (difficulty s - 1) 3 ltac:(lia)).
      unfold game_inv. simpl. rewrite Hs. inv_close. }
    destruct (_pressed inp BUTTON_DOWN).
    { injection Hu as <-. pose proof (Z.mod_pos_bound (difficulty s + 1) 3 ltac:(lia)).
      unfold game_inv. simpl. rewrite Hs. inv_close. }
    destruct (_pressed inp BUTTON_B).
    { exact (to_game_inv urandom fuel _ loaded s s' Hu Hd Hsc). }
    injection Hu as <-. unfold game_inv. inv_close.
  - apply (inv_play_frame loaded s s' Hi Hs).
    apply (update_play_frame urandom fuel inp s s' Hs Hu).
  - unfold update in Hu. rewrite Hs in Hu. injection Hu as <-. unfold _handle_pause.
    destruct Hi as (Hx & Hy & Hd & Hg & Hgo & Hsc).
    assert (Hok : game_ok s) by (apply Hg; congruence).
    destruct (_pressed inp BUTTON_A).
    { unfold game_inv. simpl. inv_close. }
    destruct (_pressed inp BUTTON_B).
    { unfold game_inv, _to_title. simpl. inv_close. }
    unfold game_inv. inv_close.
  - unfold update in Hu. rewrite Hs in Hu. unfold _handle_gameover in Hu.
    destruct Hi as (Hx & Hy & Hd & Hg & Hgo & Hsc).
    destruct (_pressed inp BUTTON_A).
    { exact (to_game_inv urandom fuel _ loaded s s' Hu Hd Hsc). }
    destruct (_pressed inp BUTTON_B).
    { injection Hu as <-. unfold game_inv, _to_title. simpl. inv_close. }
    injection Hu as <-. unfold game_inv. inv_close.
Qed.

Lemma reachable_inv urandom loaded t0 s :
  reachable urandom loaded t0 s -> game_inv loaded s.
Proof.
  induction 1 as [| fuel inp s s' _ IH Hu | now s _ IH Hs].
  - unfold game_inv, init_state. simpl. inv_close. apply scores_le_refl.
  - exact (update_inv urandom fuel inp loaded s s' IH Hu).
  - apply (inv_play_frame loaded s _ IH Hs), hint_frame; [exact Hs|].
    destruct IH as (_ & _ & _ & Hg & _). apply Hg. congruence.
Qed.

Lemma last_default_irrel {A} (l : list A) (d d' : A) :
  l <> [] -> List.last l d = List.last l d'.
Proof.
  induction l as [|a l IH]; intros Hl; [congruence|].
  destruct l as [|b l]; [reflexivity|]. apply IH. discriminate.
Qed.

Lemma reachable_run_last urandom loaded t0 fuel inps : forall s,
  reachable urandom loaded t0 s ->
  reachable urandom loaded t0 (List.last (run urandom fuel inps s) s).
Proof.
  induction inps as [|inp inps IH]; intros s Hr; simpl; [exact Hr|].
  destruct (update urandom fuel inp s) as [s'|] eqn:Hu; [|exact Hr].
  assert (Hr' : reachable urandom loaded t0 s') by exact (reach_frame _ _ _ _ _ _ _ Hr Hu).
  specialize (IH s' Hr').
  destruct (run urandom fuel inps s') as [|x l]; [exact Hr'|].
  change (reachable urandom loaded t0 (List.last (x :: l) s)).
  rewrite (last_default_irrel (x :: l) s s') by discriminate. exact IH.
Qed.

Lemma sample_game_reachable : reachable None sample_scores 0 sample_game.
Proof.
  apply (reach_frame None sample_scores 0 1 (press 1000 [BUTTON_B])
           (init_state sample_scores 0) sample_game).
  - apply reach_init.
  - vm_compute. reflexivity.
Qed.

Lemma sample_solved_reachable : reachable None sample_scores 0 sample_solved.
Proof. apply reachable_run_last, sample_game_reachable. Qed.

(** X14.  Every reachable state has the cursor on the board (column and row in
    0..8) and a difficulty in 0..2. *)
Theorem reachable_ranges urandom loaded t0 s :
  reachable urandom loaded t0 s ->
  (0 <= cursor_x s < 9)%Z /\ (0 <= cursor_y s < 9)%Z /\ (0 <= difficulty s < 3)%Z.
Proof.
  intros Hr. destruct (reachable_inv urandom loaded t0 s Hr) as (Hx & Hy & Hd & _). auto.
Qed.

Lemma reachable_ranges_witness :
  reachable None sample_scores 0 sample_solved /\ (0 <= cursor_y sample_solved < 9)%Z.
Proof.
  split; [exact sample_solved_reachable|].
  exact (proj1 (proj2 (reachable_ranges None sample_scores 0 sample_solved
    sample_solved_reachable))).
Defined.

(** X15.  Off the title screen, every reachable state holds a valid solution,
    a 9x9 board whose cells hold 0..9, and a 9x9 given mask. *)
Theorem reachable_game_ok urandom loaded t0 s :
  reachable urandom loaded t0 s -> screen s <> Title ->
  valid_solution (solution s) /\ wf_grid (board s) = true /\ le9 (board s) /\
  given_wf (given s) = true.
Proof.
  intros Hr Hs. destruct (reachable_inv urandom loaded t0 s Hr) as (_ & _ & _ & Hg & _).
  exact (Hg Hs).
Qed.

Lemma reachable_game_ok_witness :
  reachable None sample_scores 0 sample_game /\ screen sample_game <> Title /\
  wf_grid (board sample_game) = true.
Proof.
  assert (Hs : screen sample_game <> Title) by (vm_compute; discriminate).
  split; [exact sample_game_reachable|]. split; [exact Hs|].
  exact (proj1 (proj2 (reachable_game_ok None sample_scores 0 sample_game
    sample_game_reachable Hs))).
Defined.

(** X16.  Every reachable state on the game-over screen has its board equal to
    its solution. *)
Theorem reachable_gameover_solved urandom loaded t0 s :
  reachable urandom loaded t0 s -> screen s = Gameover -> board s = solution s.
Proof.
  intros Hr Hs.
  destruct (reachable_inv urandom loaded t0 s Hr) as (_ & _ & _ & Hg & Hc & _).
  destruct (Hg ltac:(congruence)) as ((Hsol & _) & Hwf & _).
  apply is_complete_eq; auto.
Qed.

Lemma reachable_gameover_solved_witness :
  reachable None sample_scores 0 sample_solved /\ screen sample_solved = Gameover /\
  board sample_solved = solution sample_solved.
Proof.
  assert (Hs : screen sample_solved = Gameover) by (vm_compute; reflexivity).
  split; [exact sample_solved_reachable|]. split; [exact Hs|].
  exact (reachable_gameover_solved None sample_scores 0 sample_solved
    sample_solved_reachable Hs).
Defined.

(** X17.  In every reachable state the ledger has as many records as the one
    loaded at import, and none of them is worse (higher) than the loaded
    one. *)
Theorem reachable_scores urandom loaded t0 s :
  reachable urandom loaded t0 s -> scores_le (hiscores s) loaded.
Proof.
  intros Hr. destruct (reachable_inv urandom loaded t0 s Hr) as (_ & _ & _ & _ & _ & Hsc).
  exact Hsc.
Qed.

Lemma reachable_scores_witness :
  reachable None sample_scores 0 sample_solved /\
  scores_le (hiscores sample_solved) sample_scores.
Proof.
  split; [exact sample_solved_reachable|].
  exact (reachable_scores None sample_scores 0 sample_solved sample_solved_reachable).
Defined.

(** X6.  For a 9x9 board and a 9x9 solution, [_is_complete] holds exactly
    when the board equals the solution. *)
Theorem is_complete_spec s :
  wf_grid (board s) = true -> wf_grid (solution s) = true ->
  _is_complete s = true <-> board s = solution s.
Proof. apply is_complete_eq. Qed.

Lemma is_complete_spec_witness :
  wf_grid (board sample_game) = true /\ wf_grid (solution sample_game) = true /\
  _is_complete sample_game = false /\ board sample_game <> solution sample_game.
Proof.
  assert (H1 : wf_grid (board sample_game) = true) by (vm_compute; reflexivity).
  assert (H2 : wf_grid (solution sample_game) = true) by (vm_compute; reflexivity).
  assert (H3 : _is_complete sample_game = false) by (vm_compute; reflexivity).
  split; [exact H1|]. split; [exact H2|]. split; [exact H3|].
  intros Heq. apply (is_complete_spec sample_game H1 H2) in Heq. congruence.
Defined.

(** ** Placing a value, hints and the B cycle *)

(** X7.  For a 9x9 board and solution, placing a value on a cell that is not
    given ends the game exactly when the board with that value written
    in equals the solution; otherwise the screen stays as it was. *)
Theorem place_number_gameover now num s :
  wf_grid (board s) = true -> wf_grid (solution s) = true ->
  given_at (given s) (Z.to_nat (cursor_y s)) (Z.to_nat (cursor_x s)) = false ->
  screen (_place_number now num s) =
    if decide (set_cell (board s) (Z.to_nat (cursor_y s)) (Z.to_nat (cursor_x s)) num =
               solution s)
    then Gameover else screen s.
Proof.
  intros H1 H2 Hg. unfold _place_number. cbv zeta. rewrite Hg.
  set (b' := set_cell (board s) (Z.to_nat (cursor_y s)) (Z.to_nat (cursor_x s)) num).
  assert (Hc : forall u, board u = b' -> solution u = solution s ->
             _is_complete u = true <-> b' = solution s).
  { intros u Hb Hs. rewrite <- Hb, <- Hs. apply is_complete_eq.
    - rewrite Hb. unfold b'. rewrite wf_grid_set. exact H1.
    - rewrite Hs. exact H2. }
  destruct (negb (num =? 0) && negb _);
  match goal with
  | |- screen (if _is_complete ?u then _ else _) = _ =>
    pose proof (Hc u eq_refl eq_refl) as Hu; destruct (_is_complete u)
  end;
  destruct (decide (b' = solution s)) as [E|E];
  try (unfold _to_gameover; case_match; reflexivity);
  try (exfalso; apply E, Hu; reflexivity);
  try (apply Hu in E; discriminate);
  reflexivity.
Qed.

Lemma place_number_gameover_witness :
  wf_grid (board sample_game) = true /\ wf_grid (solution sample_game) = true /\
  given_at (given sample_game) 0 0 = true /\
  given_at (given (set_cursor 0 1 sample_game)) 1 0 = false /\
  screen (_place_number 2000 0 (set_cursor 0 1 sample_game)) = Play.
Proof.
  assert (H1 : wf_grid (board (set_cursor 0 1 sample_game)) = true) by (vm_compute; reflexivity).
  assert (H2 : wf_grid (solution (set_cursor 0 1 sample_game)) = true)
    by (vm_compute; reflexivity).
  assert (Hg : given_at (given (set_cursor 0 1 sample_game))
                 (Z.to_nat (cursor_y (set_cursor 0 1 sample_game)))
                 (Z.to_nat (cursor_x (set_cursor 0 1 sample_game))) = false)
    by (vm_compute; reflexivity).
  split; [exact H1|]. split; [exact H2|]. split; [vm_compute; reflexivity|].
  split; [exact Hg|].
  rewrite (place_number_gameover 2000 0 _ H1 H2 Hg).
  destruct (decide _) as [E|E]; [vm_compute in E; discriminate E|reflexivity].
Defined.

(** X8.  A hint on a given cell changes nothing; on any other cell it writes
    the solution's value into the board, keeps the solution and the
    mistake count, and shows "Hint applied!" stamped at [now]. *)
Theorem hint_spec now s :
  let r := Z.to_nat (cursor_y s) in
  let c := Z.to_nat (cursor_x s) in
  if given_at (given s) r c then _hint now s = s
  else board (_hint now s) = set_cell (board s) r c (cell (solution s) r c) /\
       solution (_hint now s) = solution s /\ mistakes (_hint now s) = mistakes s /\
       toast_txt (_hint now s) = "Hint applied!" /\ toast_t (_hint now s) = now.
Proof.
  cbv zeta. unfold _hint. cbv zeta.
  destruct (given_at _ _ _); [reflexivity|]. cbn [negb].
  case_match; [unfold _to_gameover; case_match|]; split_and!; reflexivity.
Qed.

(** [v] is held by a given cell in row [r] or in column [c]. *)
Definition blocked (s : state) (r c v : nat) : Prop :=
  exists i, i < 9 /\
    ((given_at (given s) r i = true /\ cell (board s) r i = v) \/
     (given_at (given s) i c = true /\ cell (board s) i c = v)).

Definition skip_hit (s : state) (r c i x : nat) : Prop :=
  (given_at (given s) r i && negb (cell (board s) r i =? 0) = true /\ cell (board s) r i = x) \/
  (given_at (given s) i c && negb (cell (board s) i c =? 0) = true /\ cell (board s) i c = x).

Lemma skip_step s r c acc a x :
  x ∈ (let skip := if given_at (given s) r a && negb (cell (board s) r a =? 0)
                   then cell (board s) r a :: acc else acc in
       if given_at (given s) a c && negb (cell (board s) a c =? 0)
       then cell (board s) a c :: skip else skip) <->
  x ∈ acc \/ skip_hit s r c a x.
Proof.
  unfold skip_hit. cbv zeta.
  destruct (given_at (given s) r a && negb (cell (board s) r a =? 0));
  destruct (given_at (given s) a c && negb (cell (board s) a c =? 0));
    rewrite ?elem_of_cons; intuition congruence.
Qed.

Lemma skip_fold s r c l : forall acc x,
  x ∈ fold_left (fun skip x =>
    let skip := if given_at (given s) r x && negb (cell (board s) r x =? 0)
                then cell (board s) r x :: skip else skip in
    if given_at (given s) x c && negb (cell (board s) x c =? 0)
    then cell (board s) x c :: skip else skip) l acc <->
  x ∈ acc \/ exists i, In i l /\ skip_hit s r c i x.
Proof.
  induction l as [|a l IH]; intros acc x; simpl.
  - split; [tauto|]. intros [H | (i & [] & _)]. exact H.
  - rewrite IH, skip_step. split.
    + intros [[H | H] | (i & Hi & H)]; [tauto | right; eauto | right; eauto].
    + intros [H | (i & [<- | Hi] & H)]; [tauto | tauto | right; eauto].
Qed.

Lemma skip_numbers_elem s r c x :
  x ∈ skip_numbers s r c <-> x <> 0 /\ blocked s r c x.
Proof.
  unfold skip_numbers. rewrite skip_fold. unfold blocked, skip_hit.
  rewrite elem_of_nil. split.
  - intros [[] | (i & Hi & H)]. apply in_seq in Hi.
    rewrite !andb_true_iff, !negb_true_iff, !Nat.eqb_neq in H.
    split; [destruct H as [[[_ ?] <-] | [[_ ?] <-]]; auto|].
    exists i. split; [lia|]. tauto.
  - intros [Hx (i & Hi & H)]. right. exists i. split; [apply in_seq; lia|].
    rewrite !andb_true_iff, !negb_true_iff, !Nat.eqb_neq.
    destruct H as [[? <-] | [? <-]]; [left | right]; auto.
Qed.

(** X9.  The values B skips are exactly the nonzero values of given cells in
    the cursor's row or column. *)
Theorem skip_numbers_spec s r c x :
  x ∈ skip_numbers s r c <-> x <> 0 /\ blocked s r c x.
Proof. apply skip_numbers_elem. Qed.

Definition cycle_ok (current : nat) (skip : list nat) (j : nat) : bool :=
  ((current + j) mod 10 =? 0) || negb (bool_decide ((current + j) mod 10 ∈ skip)).

Lemma cycle_attempts_seq now current skip s n : forall a,
  (exists k, a <= k < a + n /\ cycle_ok current skip k = true /\
     (forall j, a <= j < k -> cycle_ok current skip j = false) /\
     cycle_attempts now current skip (seq a n) s = _place_number now ((current + k) mod 10) s) \/
  ((forall j, a <= j < a + n -> cycle_ok current skip j = false) /\
   cycle_attempts now current skip (seq a n) s = s).
Proof.
  induction n as [|n IH]; intros a.
  - right. split; [intros j Hj; lia | reflexivity].
  - cbn [seq cycle_attempts].
    destruct (cycle_ok current skip a) eqn:Ea; unfold cycle_ok in Ea; rewrite Ea.
    + left. exists a. split; [lia|]. split; [exact Ea|]. split; [intros j Hj; lia|reflexivity].
    + destruct (IH (S a)) as [(k & Hk & Hs & Hpre & Heq) | (Hall & Heq)].
      * left. exists k. split; [lia|]. split; [exact Hs|]. split; [|exact Heq].
        intros j Hj. destruct (decide (j = a)) as [->|Hne]; [exact Ea|apply Hpre; lia].
      * right. split; [|exact Heq].
        intros j Hj. destruct (decide (j = a)) as [->|Hne]; [exact Ea|apply Hall; lia].
Qed.

Lemma cycle_reaches_zero current : (current + (10 - current mod 10)) mod 10 = 0.
Proof.
  pose proof (Nat.div_mod_eq current 10). pose proof (Nat.mod_upper_bound current 10).
  replace (current + (10 - current mod 10)) with ((current / 10 + 1) * 10) by lia.
  apply Nat.Div0.mod_mul.
Qed.

(** X10.  B on a given cell changes nothing.  On any other cell it always
    places a value: the first of current+1, current+2, ... (mod 10),
    at most ten steps on, that is 0 or held by no given cell of the
    cursor's row or column; every value it passes over is nonzero and
    held by such a given cell. *)
Theorem cycle_number_spec now s :
  let r := Z.to_nat (cursor_y s) in
  let c := Z.to_nat (cursor_x s) in
  let cur := cell (board s) r c in
  if given_at (given s) r c then _cycle_number now s = s
  else exists k, 1 <= k <= 10 /\
    _cycle_number now s = _place_number now ((cur + k) mod 10) s /\
    ((cur + k) mod 10 = 0 \/ ~ blocked s r c ((cur + k) mod 10)) /\
    (forall j, 1 <= j < k -> (cur + j) mod 10 <> 0 /\ blocked s r c ((cur + j) mod 10)).
Proof.
  cbv zeta. unfold _cycle_number. cbv zeta.
  destruct (given_at _ _ _); [reflexivity|]. cbn [negb].
  set (r := Z.to_nat (cursor_y s)). set (c := Z.to_nat (cursor_x s)).
  set (cur := cell (board s) r c).
  destruct (cycle_attempts_seq now cur (skip_numbers s r c) s 10 1)
    as [(k & Hk & Hs & Hpre & Heq) | (Hall & _)].
  - exists k. split; [lia|]. split; [exact Heq|]. split.
    + destruct (decide ((cur + k) mod 10 = 0)) as [Hz|Hz]; [left; exact Hz|right].
      intros Hb. unfold cycle_ok in Hs.
      apply orb_true_iff in Hs as [H|H]; [apply Nat.eqb_eq in H; contradiction|].
      apply negb_true_iff, bool_decide_eq_false in H. apply H, skip_numbers_elem. auto.
    + intros j Hj. specialize (Hpre j Hj). unfold cycle_ok in Hpre.
      apply orb_false_iff in Hpre as [H1 H2].
      apply negb_false_iff, bool_decide_eq_true, skip_numbers_elem in H2. exact H2.
  - exfalso. pose proof (Nat.mod_upper_bound cur 10).
    specialize (Hall (10 - cur mod 10) ltac:(lia)). unfold cycle_ok in Hall.
    rewrite cycle_reaches_zero in Hall. discriminate.
Qed.

(** ** Cursor moves and the pause screen *)

(** X11.  With the cursor on the board, a move by (dx, dy) followed by a move
    by (-dx, -dy) gives back the state it started from. *)
Theorem move_cursor_roundtrip dx dy s :
  (0 <= cursor_x s < 9)%Z -> (0 <= cursor_y s < 9)%Z ->
  _move_cursor (- dx) (- dy) (_move_cursor dx dy s) = s.
Proof.
  destruct s as [scr d b sol g x y m t st h tt txt rg]. simpl. intros Hx Hy.
  unfold _move_cursor, set_cursor. simpl. f_equal.
  - rewrite Z.add_mod_idemp_l by lia. replace (x + dx + - dx)%Z with x by lia.
    apply Z.mod_small. lia.
  - rewrite Z.add_mod_idemp_l by lia. replace (y + dy + - dy)%Z with y by lia.
    apply Z.mod_small. lia.
Qed.

Lemma move_cursor_roundtrip_witness :
  (0 <= cursor_x sample_game < 9)%Z /\ (0 <= cursor_y sample_game < 9)%Z /\
  _move_cursor 1 (-1) (_move_cursor (-1) 1 sample_game) = sample_game.
Proof.
  assert (Hx : (0 <= cursor_x sample_game < 9)%Z)
    by (replace (cursor_x sample_game) with 0%Z by (vm_compute; reflexivity); lia).
  assert (Hy : (0 <= cursor_y sample_game < 9)%Z)
    by (replace (cursor_y sample_game) with 0%Z by (vm_compute; reflexivity); lia).
  split; [exact Hx|]. split; [exact Hy|].
  exact (move_cursor_roundtrip (-1) 1 sample_game Hx Hy).
Defined.

(** X13.  A frame on the pause screen changes nothing but the screen, which
    becomes the play screen (A), the title screen (B) or stays. *)
Theorem pause_screen_frame urandom fuel inp s s' :
  screen s = Pause -> update urandom fuel inp s = Some s' ->
  s' = set_screen (screen s') s /\ (screen s' = Play \/ screen s' = Title \/ screen s' = Pause).
Proof.
  intros Hs Hu. unfold update in Hu. rewrite Hs in Hu. injection Hu as <-.
  unfold _handle_pause, _to_title.
  destruct (_pressed inp BUTTON_A); [split; [reflexivity|auto]|].
  destruct (_pressed inp BUTTON_B); [split; [reflexivity|auto]|].
  split; [|auto]. destruct s; simpl in *. subst. reflexivity.
Qed.

Lemma pause_screen_frame_witness :
  screen (set_screen Pause sample_game) = Pause /\
  update None 1 (press 3000 [BUTTON_A]) (set_screen Pause sample_game) = Some sample_game /\
  sample_game = set_screen (screen sample_game) (set_screen Pause sample_game).
Proof.
  assert (Hs : screen (set_screen Pause sample_game) = Pause) by reflexivity.
  assert (Hu : update None 1 (press 3000 [BUTTON_A]) (set_screen Pause sample_game) =
               Some sample_game) by (vm_compute; reflexivity).
  split; [exact Hs|]. split; [exact Hu|].
  exact (proj1 (pause_screen_frame None 1 _ _ _ Hs Hu)).
Defined.

(** ** Validity of a placement *)

(** X18.  For a cell on the board, [_is_valid] accepts [n] exactly when no
    other cell of the same row, column or 3x3 box holds [n]. *)
Theorem is_valid_iff b r c n :
  r < 9 -> c < 9 ->
  _is_valid b r c n = true <->
  (forall r' c', r' < 9 -> c' < 9 -> (r', c') <> (r, c) -> same_unit r c r' c' ->
                 cell b r' c' <> n).
Proof. apply is_valid_spec. Qed.

Lemma is_valid_iff_witness :
  0 < 9 /\ 1 < 9 /\ _is_valid (solution sample_game) 0 1 (cell (solution sample_game) 0 0) = false /\
  (forall r' c', r' < 9 -> c' < 9 -> (r', c') <> (0, 1) -> same_unit 0 1 r' c' ->
     cell (solution sample_game) r' c' <> cell (solution sample_game) 0 1).
Proof.
  split; [lia|]. split; [lia|]. split; [vm_compute; reflexivity|].
  apply (is_valid_iff (solution sample_game) 0 1 _ ltac:(lia) ltac:(lia)).
  vm_compute. reflexivity.
Defined.

(** ** The seeding phase of [_generate_full_board] *)

Lemma perm19_as_lookups (n : list nat) :
  Permutation n (seq 1 9) ->
  Permutation [default 0 (n !! 0); default 0 (n !! 1); default 0 (n !! 2);
               default 0 (n !! 3); default 0 (n !! 4); default 0 (n !! 5);
               default 0 (n !! 6); default 0 (n !! 7); default 0 (n !! 8)] (seq 1 9).
Proof.
  intros P. destruct (perm19_nodup n P) as [_ Hlen].
  do 9 (destruct n as [|? n]; [simpl in Hlen; lia|]).
  destruct n; [|simpl in Hlen; lia]. exact P.
Qed.

(** X3.  Before the solver runs, the shuffle-and-fill loop leaves a 9x9 grid
    whose three diagonal boxes (boxes 0, 4 and 8) each hold a
    permutation of 1..9, and whose other cells are all 0. *)
Theorem seed_boxes_diagonal urandom st :
  let b := (seed_boxes urandom [0; 3; 6] zero_grid st).1 in
  wf_grid b = true /\
  Permutation (box_vals b 0) (seq 1 9) /\ Permutation (box_vals b 4) (seq 1 9) /\
  Permutation (box_vals b 8) (seq 1 9) /\
  (forall r c, r < 9 -> c < 9 -> r / 3 <> c / 3 -> cell b r c = 0).
Proof.
  cbv zeta.
  destruct (seed_boxes_cells urandom st) as (n0 & n1 & n2 & P0 & P1 & P2 & Hcell).
  destruct zero_grid_ok as [Hwf0 Hle0].
  destruct (seed_boxes_ok urandom [0; 3; 6] zero_grid st Hwf0 Hle0) as [Hwf _].
  set (b := (seed_boxes urandom [0; 3; 6] zero_grid st).1) in *.
  split_and!; [exact Hwf | | | |].
  - change (box_vals b 0) with
      [cell b 0 0; cell b 0 1; cell b 0 2; cell b 1 0; cell b 1 1; cell b 1 2;
       cell b 2 0; cell b 2 1; cell b 2 2].
    rewrite !Hcell by lia. apply perm19_as_lookups, P0.
  - change (box_vals b 4) with
      [cell b 3 3; cell b 3 4; cell b 3 5; cell b 4 3; cell b 4 4; cell b 4 5;
       cell b 5 3; cell b 5 4; cell b 5 5].
    rewrite !Hcell by lia. apply perm19_as_lookups, P1.
  - change (box_vals b 8) with
      [cell b 6 6; cell b 6 7; cell b 6 8; cell b 7 6; cell b 7 7; cell b 7 8;
       cell b 8 6; cell b 8 7; cell b 8 8].
    rewrite !Hcell by lia. apply perm19_as_lookups, P2.
  - intros r c Hr Hc Hne. rewrite Hcell by lia. unfold seeded.
    destruct (decide (r / 3 = c / 3)); [contradiction|reflexivity].
Qed.
